(** * qPCR_Analysis.py: the delta-delta-Ct pipeline

    A shallow embedding of the numeric core of [qPCR_Analysis.py]
    ([group_ct_values], [compute_delta_ct], [average_delta_ct],
    [compute_ddct], [compute_fold_change]) and the properties of it that the
    specification states.

    - Python [float] is IEEE-754 binary64; it is modelled by [spec_float]
      with [prec = 53] and [emax = 1024], so rounding, signed zeros,
      infinities and NaN behave as they do in the interpreter.
    - Python [dict] keeps insertion order, and the order in which samples
      are visited decides the order of a delta-Ct list and therefore the
      rounding of its sum.  A dict is an association list in insertion
      order; assigning to an existing key replaces the value in place.
    - Python [set] iteration order over strings is not fixed, so
      [compute_ddct] takes the order in which the set of genes is visited
      as an argument, constrained by [set_iteration].
    - [2 ** x] may raise [OverflowError]; [compute_fold_change] returns an
      [option]. *)

From Stdlib Require Import ZArith List String Bool Lia.
From Stdlib Require Import Permutation Sorted.
From Stdlib Require Import Floats.SpecFloat.
Import ListNotations.

Local Open Scope string_scope.
Local Open Scope list_scope.
Local Open Scope Z_scope.

(** ** Binary64 numbers *)

Module F64.

Definition prec : Z := 53.
Definition emax : Z := 1024.

Definition float : Type := spec_float.

Definition add : float -> float -> float := SFadd prec emax.
Definition sub : float -> float -> float := SFsub prec emax.
Definition div : float -> float -> float := SFdiv prec emax.
Definition opp : float -> float := SFopp.

(** [m * 2^e], rounded to nearest even: how a decimal literal with an exact
    binary value, and the conversion [float(n)] of an [int], are read. *)
Definition dyadic (m e : Z) : float := binary_normalize prec emax m e false.

Definition of_Z (n : Z) : float := dyadic n 0.
Definition of_nat (n : nat) : float := of_Z (Z.of_nat n).

Definition zero : float := S754_zero false.
Definition one : float := of_Z 1.
Definition nan : float := S754_nan.
Definition infinity : float := S754_infinity false.

Definition is_finite (x : float) : bool :=
  match x with
  | S754_zero _ | S754_finite _ _ _ => true
  | S754_infinity _ | S754_nan => false
  end.

Definition is_infinity (x : float) : bool :=
  match x with
  | S754_infinity _ => true
  | _ => false
  end.

(** [x == y], [x < y] and [x <= y] of Python floats (all false on NaN). *)
Definition eqb : float -> float -> bool := SFeqb.
Definition ltb : float -> float -> bool := SFltb.
Definition leb : float -> float -> bool := SFleb.

(** The integer a finite float is equal to, when it is equal to one. *)
Definition integral_value (y : float) : option Z :=
  match y with
  | S754_zero _ => Some 0
  | S754_finite s m e =>
      if 0 <=? e then Some (cond_Zopp s (Zpos m * 2 ^ e))
      else if (Zpos m mod 2 ^ (- e)) =? 0
           then Some (cond_Zopp s (Zpos m / 2 ^ (- e)))
           else None
  | S754_infinity _ | S754_nan => None
  end.

(** [2^n] for an integer [n], as a binary64 number: exact between
    [2^-1074] and [2^1023], [+inf] above, [+0] below. *)
Definition pow2_Z (n : Z) : float :=
  if 1023 <? n then S754_infinity false
  else if n <? -1075 then S754_zero false
  else binary_round prec emax false 1 n.

(** builtin [sum] on a list of floats: the start value is the int [0],
    converted to [0.0] at the first float, then left-to-right additions.
    This is CPython up to 3.11; from 3.12 on the float loop carries a
    compensation term ([sum_compensated] below).  On a list of one value,
    as in the scenario, the two agree. *)
Definition sum (values : list float) : float := fold_left add values zero.

Definition abs : float -> float := SFabs.

(** One turn of the float loop of [sum] from CPython 3.12 on, which keeps
    the running sum [f] and a compensation [c] (Neumaier):
    [t = f + x; c += (f - t) + x if fabs(f) >= fabs(x) else (x - t) + f;
    f = t]. *)
Definition neumaier_step (st : float * float) (x : float) : float * float :=
  let '(f, c) := st in
  let t := add f x in
  (t, if leb (abs x) (abs f)
      then add c (add (sub f t) x)
      else add c (add (sub x t) f)).

(** builtin [sum] on a list of floats from CPython 3.12 on: the first value
    is added to the int [0] as before, the others go through the
    compensated loop, and at the end the compensation is added when it is
    finite and not zero ([if (c && isfinite(c)) f += c]). *)
Definition sum_compensated (values : list float) : float :=
  match values with
  | [] => zero
  | x :: rest =>
      let '(f, c) := fold_left neumaier_step rest (add zero x, zero) in
      match c with
      | S754_finite _ _ _ => add f c
      | _ => f
      end
  end.

(** The two summations of builtin [sum], by interpreter version. *)
Inductive SumAlgorithm : Type :=
  | LeftToRightSum   (* CPython up to 3.11 *)
  | CompensatedSum.  (* CPython 3.12 and later *)

Definition sum_of (alg : SumAlgorithm) (values : list float) : float :=
  match alg with
  | LeftToRightSum => sum values
  | CompensatedSum => sum_compensated values
  end.

(** The largest integer not above a finite float ([0] otherwise). *)
Definition floor_Z (y : float) : Z :=
  match y with
  | S754_finite s m e =>
      if 0 <=? e then cond_Zopp s (Zpos m * 2 ^ e)
      else cond_Zopp s (Zpos m) / 2 ^ (- e)
  | _ => 0
  end.

End F64.


(** ** Keys

    Dict keys of the program are strings and tuples of strings, compared
    with [==]. *)

Class EqKey (K : Type) : Type := {
  keqb : K -> K -> bool;
  keqb_spec : forall x y : K, reflect (x = y) (keqb x y)
}.

Lemma pair_eqb_spec {A B : Type} `{EqKey A} `{EqKey B} (x y : A * B) :
  reflect (x = y) (keqb (fst x) (fst y) && keqb (snd x) (snd y)).
Proof.
  destruct x as [a b], y as [c d]; simpl.
  destruct (keqb_spec a c) as [-> | Hac]; simpl.
  - destruct (keqb_spec b d) as [-> | Hbd]; constructor; congruence.
  - constructor; congruence.
Qed.

#[export] Instance string_EqKey : EqKey string :=
  {| keqb := String.eqb; keqb_spec := String.eqb_spec |}.

#[export] Instance pair_EqKey (A B : Type) `{EqKey A} `{EqKey B} : EqKey (A * B) :=
  {| keqb := fun x y => keqb (fst x) (fst y) && keqb (snd x) (snd y);
     keqb_spec := pair_eqb_spec |}.

(** ** Insertion-ordered dicts *)

Module Dict.

Definition t (K V : Type) : Type := list (K * V).

Section Ops.
Context {K V : Type} `{EqKey K}.

(** [{}] *)
Definition empty : t K V := [].

(** [d.get(k)]: [None] when [k not in d]. *)
Fixpoint get (d : t K V) (k : K) : option V :=
  match d with
  | [] => None
  | (k', v) :: rest => if keqb k k' then Some v else get rest k
  end.

(** [k in d] *)
Definition mem (d : t K V) (k : K) : bool :=
  match get d k with Some _ => true | None => false end.

(** [d[k] = v]: an existing key keeps its place, a new one goes last. *)
Fixpoint set (d : t K V) (k : K) (v : V) : t K V :=
  match d with
  | [] => [(k, v)]
  | (k', v') :: rest =>
      if keqb k k' then (k', v) :: rest else (k', v') :: set rest k v
  end.

(** [d.keys()], [d.items()] is the list itself. *)
Definition keys (d : t K V) : list K := map fst d.

(** A dict holds each key once. *)
Definition wf (d : t K V) : Prop := NoDup (keys d).

(** Mutation of the object stored under [k], as in [d[k].append(x)] or
    [d[k][s] = x]; [d] is unchanged when [k] is missing (the program
    never does that: Python would raise [KeyError]). *)
Definition update (d : t K V) (k : K) (f : V -> V) : t K V :=
  match get d k with
  | Some v => set d k (f v)
  | None => d
  end.
End Ops.

End Dict.

(** ** The program *)

(** A row of the parsed table: [row["condition"]], [row["gene"]],
    [row["sample_id"]], [row["ct"]]. *)
Record Reading : Type := mkReading {
  condition : string;
  gene : string;
  sample_id : string;
  ct : F64.float
}.

Definition GroupKey : Type := (string * string)%type.
Definition SampleMap : Type := Dict.t string F64.float.
Definition Grouped : Type := Dict.t GroupKey SampleMap.
Definition HousekeepingIndex : Type := Dict.t (string * string) F64.float.
Definition DeltaCtSet : Type := Dict.t GroupKey (list F64.float).
Definition MeanDeltaCt : Type := Dict.t GroupKey F64.float.
Definition DeltaDeltaCt : Type := Dict.t GroupKey F64.float.
Definition FoldChange : Type := Dict.t GroupKey F64.float.

(** *** [group_ct_values] *)

(** One turn of [for row in data]. *)
Definition group_row (grouped : Grouped) (row : Reading) : Grouped :=
  let key := (condition row, gene row) in
  let grouped :=
    if Dict.mem grouped key then grouped else Dict.set grouped key Dict.empty in
  Dict.update grouped key (fun samples => Dict.set samples (sample_id row) (ct row)).

Definition group_ct_values (data : list Reading) : Grouped :=
  fold_left group_row data Dict.empty.

(** *** [compute_delta_ct] *)

(** First loop: housekeeping Ct per (condition, sample). *)
Definition housekeeping_samples (cond : string) (housekeeping : HousekeepingIndex)
    (samples : SampleMap) : HousekeepingIndex :=
  fold_left (fun hk item => Dict.set hk (cond, fst item) (snd item))
            samples housekeeping.

Definition housekeeping_group (housekeeping_gene : string)
    (housekeeping : HousekeepingIndex) (item : GroupKey * SampleMap)
    : HousekeepingIndex :=
  let '((cond, gene), samples) := item in
  if String.eqb gene housekeeping_gene
  then housekeeping_samples cond housekeeping samples
  else housekeeping.

Definition housekeeping_index (grouped : Grouped) (housekeeping_gene : string)
    : HousekeepingIndex :=
  fold_left (housekeeping_group housekeeping_gene) grouped Dict.empty.

(** Second loop, inner [for sample_id, ct in samples.items()]. *)
Definition delta_sample (housekeeping : HousekeepingIndex) (cond : string)
    (key : GroupKey) (delta_ct : DeltaCtSet) (item : string * F64.float)
    : DeltaCtSet :=
  let '(sample_id, ct) := item in
  match Dict.get housekeeping (cond, sample_id) with
  | None => delta_ct
  | Some hk_ct => Dict.update delta_ct key (fun l => l ++ [F64.sub ct hk_ct])
  end.

(** Second loop, one turn of [for (cond, gene), samples in grouped.items()]. *)
Definition delta_group (housekeeping : HousekeepingIndex)
    (housekeeping_gene : string) (delta_ct : DeltaCtSet)
    (item : GroupKey * SampleMap) : DeltaCtSet :=
  let '((cond, gene), samples) := item in
  if String.eqb gene housekeeping_gene then delta_ct
  else
    let key := (cond, gene) in
    fold_left (delta_sample housekeeping cond key) samples
              (Dict.set delta_ct key []).

Definition compute_delta_ct (grouped : Grouped) (housekeeping_gene : string)
    : DeltaCtSet :=
  let housekeeping := housekeeping_index grouped housekeeping_gene in
  fold_left (delta_group housekeeping housekeeping_gene) grouped Dict.empty.

(** *** [average_delta_ct] *)

Definition average_group (mean_delta_ct : MeanDeltaCt)
    (item : GroupKey * list F64.float) : MeanDeltaCt :=
  let '(key, values) := item in
  if Nat.eqb (List.length values) 0 then mean_delta_ct
  else Dict.set mean_delta_ct key
         (F64.div (F64.sum values) (F64.of_nat (List.length values))).

Definition average_delta_ct (delta_ct_dict : DeltaCtSet) : MeanDeltaCt :=
  fold_left average_group delta_ct_dict Dict.empty.

(** [average_delta_ct] for either summation of builtin [sum];
    [average_delta_ct] above is the one of [LeftToRightSum]. *)
Definition average_group_on (alg : F64.SumAlgorithm) (mean_delta_ct : MeanDeltaCt)
    (item : GroupKey * list F64.float) : MeanDeltaCt :=
  let '(key, values) := item in
  if Nat.eqb (List.length values) 0 then mean_delta_ct
  else Dict.set mean_delta_ct key
         (F64.div (F64.sum_of alg values) (F64.of_nat (List.length values))).

Definition average_delta_ct_on (alg : F64.SumAlgorithm)
    (delta_ct_dict : DeltaCtSet) : MeanDeltaCt :=
  fold_left (average_group_on alg) delta_ct_dict Dict.empty.

(** *** [compute_ddct] *)

(** The elements of [set(g for (cond, g) in mean_delta_ct.keys())], with
    repetitions. *)
Definition genes_of (mean_delta_ct : MeanDeltaCt) : list string :=
  map (fun key => snd key) (Dict.keys mean_delta_ct).

(** [order] is a way [for x in s] can visit the set of the elements of [s]:
    each element once. *)
Definition set_iteration {A : Type} (s order : list A) : Prop :=
  NoDup order /\ forall x, In x order <-> In x s.

(** Inner [for (cond, g) in mean_delta_ct.keys()]. *)
Definition ddct_key (mean_delta_ct : MeanDeltaCt) (gene : string)
    (control_dct : F64.float) (ddct : DeltaDeltaCt) (key : GroupKey)
    : DeltaDeltaCt :=
  let '(cond, g) := key in
  if negb (String.eqb g gene) then ddct
  else
    match Dict.get mean_delta_ct (cond, g) with
    | Some dct => Dict.set ddct (cond, g) (F64.sub dct control_dct)
    | None => ddct
    end.

(** One turn of [for gene in genes]. *)
Definition ddct_gene (mean_delta_ct : MeanDeltaCt) (control_condition : string)
    (ddct : DeltaDeltaCt) (gene : string) : DeltaDeltaCt :=
  match Dict.get mean_delta_ct (control_condition, gene) with
  | None => ddct
  | Some control_dct =>
      fold_left (ddct_key mean_delta_ct gene control_dct)
                (Dict.keys mean_delta_ct) ddct
  end.

(** [genes] is the order in which the loop visits the set of genes. *)
Definition compute_ddct (genes : list string) (mean_delta_ct : MeanDeltaCt)
    (control_condition : string) : DeltaDeltaCt :=
  fold_left (ddct_gene mean_delta_ct control_condition) genes Dict.empty.

(** *** [compute_fold_change] *)

Section FoldChange.

(** The C library's [pow(2.0, y)] at a finite [y] that is not an integer;
    the language fixes no more of it than its type. *)
Variable pow2_frac : F64.float -> F64.float.

(** [pow(2.0, y)] for finite [y]. *)
Definition libm_pow2 (y : F64.float) : F64.float :=
  match F64.integral_value y with
  | Some n => F64.pow2_Z n
  | None => pow2_frac y
  end.

(** [2 ** y] for a float [y], after [float_pow] of CPython: the special
    cases are decided before the C library is called, and an infinite
    result from finite operands raises [OverflowError] ([None]). *)
Definition py_pow2 (y : F64.float) : option F64.float :=
  match y with
  | S754_zero _ => Some F64.one
  | S754_nan => Some F64.nan
  | S754_infinity false => Some F64.infinity
  | S754_infinity true => Some F64.zero
  | S754_finite _ _ _ =>
      let r := libm_pow2 y in
      if F64.is_infinity r then None else Some r
  end.

(** [for key, value in ddct_dict.items()] *)
Fixpoint fold_change_loop (items : list (GroupKey * F64.float))
    (fold_change : FoldChange) : option FoldChange :=
  match items with
  | [] => Some fold_change
  | (key, value) :: rest =>
      match py_pow2 (F64.opp value) with
      | None => None
      | Some p => fold_change_loop rest (Dict.set fold_change key p)
      end
  end.

Definition compute_fold_change (ddct_dict : DeltaDeltaCt) : option FoldChange :=
  fold_change_loop ddct_dict Dict.empty.

End FoldChange.

(** *** [main]

    The calls of [main] between reading the table and writing the results. *)
Definition pipeline (pow2_frac : F64.float -> F64.float) (genes : list string)
    (data : list Reading) (hk_gene control_cond : string)
    : MeanDeltaCt * DeltaDeltaCt * option FoldChange :=
  let grouped := group_ct_values data in
  let delta_ct := compute_delta_ct grouped hk_gene in
  let mean_delta_ct := average_delta_ct delta_ct in
  let ddct := compute_ddct genes mean_delta_ct control_cond in
  (mean_delta_ct, ddct, compute_fold_change pow2_frac ddct).

(** ** Notions the statements use *)

(** A grouped input as [group_ct_values] builds it: each GroupKey once, each
    sample once under its key. *)
Definition grouped_wf (grouped : Grouped) : Prop :=
  Dict.wf grouped /\
  forall key samples, In (key, samples) grouped -> Dict.wf samples.

(** The same as boolean checks, to decide them on concrete inputs. *)
Fixpoint distinctb {K : Type} `{EqKey K} (l : list K) : bool :=
  match l with
  | [] => true
  | k :: rest => negb (existsb (keqb k) rest) && distinctb rest
  end.

Definition grouped_wfb (grouped : Grouped) : bool :=
  distinctb (Dict.keys grouped)
  && forallb (fun item => distinctb (Dict.keys (snd item))) grouped.

Definition reading_matches (c g s : string) (row : Reading) : bool :=
  String.eqb (condition row) c && String.eqb (gene row) g
  && String.eqb (sample_id row) s.

(** The last reading of [data], in input order, with this condition, gene
    and sample. *)
Definition last_reading (data : list Reading) (c g s : string)
    : option Reading :=
  find (reading_matches c g s) (rev data).

(** The housekeeping Ct of a sample under a condition, read off the grouped
    input. *)
Definition housekeeping_ct (grouped : Grouped) (housekeeping_gene : string)
    (cond sample : string) : option F64.float :=
  match Dict.get grouped (cond, housekeeping_gene) with
  | Some samples => Dict.get samples sample
  | None => None
  end.

(** What one sample contributes to the delta-Ct list of its key. *)
Definition delta_of_sample (housekeeping : HousekeepingIndex) (cond : string)
    (item : string * F64.float) : list F64.float :=
  match Dict.get housekeeping (cond, fst item) with
  | Some hk_ct => [F64.sub (snd item) hk_ct]
  | None => []
  end.

Definition delta_values (housekeeping : HousekeepingIndex) (cond : string)
    (samples : SampleMap) : list F64.float :=
  flat_map (delta_of_sample housekeeping cond) samples.

(** The samples of a key that have a housekeeping Ct. *)
Definition matched_samples (housekeeping : HousekeepingIndex) (cond : string)
    (samples : SampleMap) : SampleMap :=
  filter (fun item => Dict.mem housekeeping (cond, fst item)) samples.

(** ** Inputs of the examples *)

Definition scenario : list Reading :=
  [ mkReading "control" "GAPDH" "s1" (F64.of_Z 20);
    mkReading "control" "Bax" "s1" (F64.of_Z 25);
    mkReading "treated" "GAPDH" "s1" (F64.dyadic 41 (-1));
    mkReading "treated" "Bax" "s1" (F64.of_Z 24) ].

Definition scenario_mean : MeanDeltaCt :=
  average_delta_ct (compute_delta_ct (group_ct_values scenario) "GAPDH").

(** [1.5], [3.5] and [-1.5] *)
Definition f1_5 : F64.float := F64.dyadic 3 (-1).
Definition f3_5 : F64.float := F64.dyadic 7 (-1).
Definition fm1_5 : F64.float := F64.dyadic (-3) (-1).

(** The binary64 number nearest to [2^1.5 = sqrt 8], 2.8284271247461903. *)
Definition sqrt8 : F64.float := SFsqrt F64.prec F64.emax (F64.of_Z 8).

(** A stand-in for the C library in the examples, where it is called at 1.5
    only. *)
Definition example_pow2_frac (y : F64.float) : F64.float := sqrt8.

(** Readings of a target gene with no housekeeping reading at all. *)
Definition grouped_without_housekeeping : Grouped :=
  [ (("control", "Bax"), [("s1", F64.of_Z 25)]) ].

(** Sample s3 has a Bax reading and no GAPDH reading. *)
Definition grouped_missing_s3 : Grouped :=
  [ (("control", "GAPDH"), [("s1", F64.of_Z 20); ("s2", F64.of_Z 21)]);
    (("control", "Bax"),
     [("s1", F64.of_Z 25); ("s2", F64.of_Z 26); ("s3", F64.of_Z 27)]) ].

(** Bax means for control and treated, with the control entry deleted. *)
Definition mean_without_control : MeanDeltaCt :=
  [ (("treated", "Bax"), f3_5) ].

(** A control mean that is not finite. *)
Definition mean_infinite_control : MeanDeltaCt :=
  [ (("control", "Bax"), F64.infinity) ].

(** A delta-delta-Ct so large that [2 ** -v] underflows. *)
Definition ddct_underflow : DeltaDeltaCt :=
  [ (("treated", "Bax"), F64.of_Z 2000) ].

(** [0.1], [0.2], [0.3] and [0.6] as binary64 numbers. *)
Definition f0_1 : F64.float := F64.dyadic 7205759403792794 (-56).
Definition f0_2 : F64.float := F64.dyadic 7205759403792794 (-55).
Definition f0_3 : F64.float := F64.dyadic 5404319552844595 (-54).
Definition f0_6 : F64.float := F64.dyadic 5404319552844595 (-53).

(** A delta-Ct set with three values whose two sums differ, and an empty
    sequence. *)
Definition delta_triplicate : DeltaCtSet :=
  [ (("control", "Bax"), [f0_1; f0_2; f0_3]); (("treated", "Bax"), []) ].

(** A stand-in for the C library that returns, at an exponent that is not
    an integer, the power of two of the integer below it. *)
Definition floor_pow2_frac (y : F64.float) : F64.float :=
  F64.pow2_Z (F64.floor_Z y).

(** A delta-delta-Ct mapping with a whole, a fractional and a large
    value. *)
Definition ddct_mixed : DeltaDeltaCt :=
  [ (("control", "Bax"), F64.zero); (("treated", "Bax"), fm1_5);
    (("treated", "p53"), F64.of_Z 2000) ].

(** A delta-Ct set with an empty sequence. *)
Definition delta_with_empty : DeltaCtSet :=
  [ (("control", "Bax"), [F64.of_Z 5; F64.of_Z 6]); (("treated", "Bax"), []) ].

(** *** [write_results_to_csv]

    The rows handed to [csv.DictWriter], in the order they are written; the
    file itself is outside the model. *)

(** [a <= b] on tuples of two strings: the first components decide unless
    they are equal.  Strings are compared character by character; on the
    bytes of UTF-8 text that is the order of the code points. *)
Definition key_leb (a b : GroupKey) : bool :=
  match String.compare (fst a) (fst b) with
  | Lt => true
  | Eq => String.leb (snd a) (snd b)
  | Gt => false
  end.

(** [sorted(keys)]: the stable sort, as an insertion sort. *)
Fixpoint insert_key (k : GroupKey) (l : list GroupKey) : list GroupKey :=
  match l with
  | [] => [k]
  | k' :: rest => if key_leb k k' then k :: l else k' :: insert_key k rest
  end.

Fixpoint sorted_keys (l : list GroupKey) : list GroupKey :=
  match l with
  | [] => []
  | k :: rest => insert_key k (sorted_keys rest)
  end.

(** A row of the output table; [None] is the empty string. *)
Record ResultRow : Type := mkResultRow {
  row_gene : string;
  row_condition : string;
  row_mean_delta_ct : F64.float;
  row_ddct : option F64.float;
  row_fold_change : option F64.float
}.

Section Writer.

(** [round(x, 4)] on floats. *)
Variable round4 : F64.float -> F64.float.

(** [round(d.get(key, float("nan")), 4)] *)
Definition rounded_or_nan (d : Dict.t GroupKey F64.float) (key : GroupKey)
    : F64.float :=
  round4 (match Dict.get d key with Some v => v | None => F64.nan end).

Definition result_row (mean_delta_ct : MeanDeltaCt) (ddct : DeltaDeltaCt)
    (fold_change : FoldChange) (key : GroupKey) : ResultRow :=
  let '(cond, gene) := key in
  {| row_gene := gene;
     row_condition := cond;
     row_mean_delta_ct := rounded_or_nan mean_delta_ct (cond, gene);
     row_ddct :=
       if Dict.mem ddct (cond, gene)
       then Some (rounded_or_nan ddct (cond, gene)) else None;
     row_fold_change :=
       if Dict.mem fold_change (cond, gene)
       then Some (rounded_or_nan fold_change (cond, gene)) else None |}.

Definition result_rows (mean_delta_ct : MeanDeltaCt) (ddct : DeltaDeltaCt)
    (fold_change : FoldChange) : list ResultRow :=
  map (result_row mean_delta_ct ddct fold_change)
      (sorted_keys (Dict.keys mean_delta_ct)).

(** [main] from the parsed table to the rows written; [None] when
    [compute_fold_change] raises. *)
Definition main_rows (pow2_frac : F64.float -> F64.float) (genes : list string)
    (data : list Reading) (hk_gene control_cond : string)
    : option (list ResultRow) :=
  let '(mean_delta_ct, ddct, fold) :=
    pipeline pow2_frac genes data hk_gene control_cond in
  match fold with
  | Some fold_change => Some (result_rows mean_delta_ct ddct fold_change)
  | None => None
  end.

End Writer.

(** ** Further notions and inputs *)

(** The number of Ct values a grouped input holds. *)
Definition total_samples (grouped : Grouped) : nat :=
  list_sum (map (fun item => List.length (snd item)) grouped).

Definition reading_triple (row : Reading) : string * string * string :=
  (condition row, gene row, sample_id row).

(** Whether the grouped input has a Ct for the condition, gene and sample
    of [row]. *)
Definition has_sample (grouped : Grouped) (row : Reading) : bool :=
  match Dict.get grouped (condition row, gene row) with
  | Some samples => Dict.mem samples (sample_id row)
  | None => false
  end.

(** [x] is the binary64 number [m * 2^e] with [m * 2^e = 2^n]. *)
Definition is_pow2 (n : Z) (x : F64.float) : bool :=
  match x with
  | S754_finite false m e => (e <=? n) && (Zpos m =? 2 ^ (n - e))
  | _ => false
  end.

(** The key a row was written for. *)
Definition row_key (row : ResultRow) : GroupKey :=
  (row_condition row, row_gene row).

(** [a <= b] on keys, as a relation. *)
Definition key_le (a b : GroupKey) : Prop := key_leb a b = true.

(** Means of two genes under two conditions. *)
Definition mean_two_genes : MeanDeltaCt :=
  [ (("control", "Bax"), F64.of_Z 5); (("treated", "Bax"), f3_5);
    (("control", "p53"), F64.of_Z 2); (("treated", "p53"), F64.of_Z 4) ].

(** A delta-delta-Ct whose power [2 ** 2000.0] overflows. *)
Definition ddct_overflow : DeltaDeltaCt :=
  [ (("control", "Bax"), F64.zero); (("treated", "Bax"), F64.of_Z (-2000)) ].

(** Delta-delta-Ct values that are whole numbers. *)
Definition ddct_integers : DeltaDeltaCt :=
  [ (("control", "Bax"), F64.zero); (("treated", "Bax"), F64.of_Z (-3));
    (("treated", "p53"), F64.of_Z 2) ].

(** Delta-delta-Ct values that are not finite. *)
Definition ddct_nonfinite : DeltaDeltaCt :=
  [ (("a", "Bax"), F64.infinity); (("b", "Bax"), S754_infinity true);
    (("c", "Bax"), F64.nan) ].

(** A delta-Ct set with a NaN in one sequence. *)
Definition delta_with_nan : DeltaCtSet :=
  [ (("control", "Bax"), [F64.of_Z 5; F64.nan; F64.of_Z 6]) ].

(** The scenario with its rows in another order. *)
Definition scenario_reordered : list Reading :=
  [ mkReading "treated" "Bax" "s1" (F64.of_Z 24);
    mkReading "control" "GAPDH" "s1" (F64.of_Z 20);
    mkReading "treated" "GAPDH" "s1" (F64.dyadic 41 (-1));
    mkReading "control" "Bax" "s1" (F64.of_Z 25) ].

(** Bax under control and treated, GAPDH under control only. *)
Definition grouped_one_condition : Grouped :=
  [ (("control", "GAPDH"), [("s1", F64.of_Z 20)]);
    (("control", "Bax"), [("s1", F64.of_Z 25)]);
    (("treated", "Bax"), [("s1", F64.of_Z 24)]) ].

(** A stand-in for [round(x, 4)] in the examples. *)
Definition example_round4 (x : F64.float) : F64.float := x.
(** * Facts about keys and dicts *)

Lemma keqb_refl {K : Type} `{EqKey K} (k : K) : keqb k k = true.
Proof. destruct (keqb_spec k k); congruence. Qed.

Lemma keqb_neq {K : Type} `{EqKey K} (k k' : K) : k <> k' -> keqb k k' = false.
Proof. destruct (keqb_spec k k'); congruence. Qed.

Lemma keqb_eq {K : Type} `{EqKey K} (k k' : K) : keqb k k' = true -> k = k'.
Proof. destruct (keqb_spec k k'); congruence. Qed.

Section DictFacts.
Context {K V : Type} `{EqKey K}.
Implicit Types (d : Dict.t K V) (k : K) (v : V).

Lemma get_set_eq d k v : Dict.get (Dict.set d k v) k = Some v.
Proof.
  induction d as [|[k' v'] d IH]; simpl.
  - now rewrite keqb_refl.
  - destruct (keqb k k') eqn:E; simpl; rewrite E; auto.
Qed.

Lemma get_set_neq d k k' v :
  k <> k' -> Dict.get (Dict.set d k v) k' = Dict.get d k'.
Proof.
  intros Hne. induction d as [|[k0 v0] d IH]; simpl.
  - rewrite keqb_neq; auto.
  - destruct (keqb k k0) eqn:E; simpl.
    + apply keqb_eq in E. subst k0. rewrite keqb_neq; auto.
    + now rewrite IH.
Qed.

Lemma get_set d k k' v :
  Dict.get (Dict.set d k v) k' = if keqb k' k then Some v else Dict.get d k'.
Proof.
  destruct (keqb_spec k' k) as [-> | Hne].
  - apply get_set_eq.
  - apply get_set_neq. congruence.
Qed.

Lemma get_Some_In d k v : Dict.get d k = Some v -> In (k, v) d.
Proof.
  induction d as [|[k' v'] d IH]; simpl; [discriminate|].
  destruct (keqb_spec k k') as [-> | Hne]; intros E.
  - injection E as ->. now left.
  - right. auto.
Qed.

Lemma get_None_keys d k : Dict.get d k = None <-> ~ In k (Dict.keys d).
Proof.
  induction d as [|[k' v'] d IH]; simpl.
  - tauto.
  - destruct (keqb_spec k k') as [-> | Hne].
    + split; [discriminate|]. intros Hn. exfalso. apply Hn. now left.
    + rewrite IH. split.
      * intros Hn [E|Hin]; [congruence|tauto].
      * tauto.
Qed.

Lemma in_keys_get d k : In k (Dict.keys d) <-> exists v, Dict.get d k = Some v.
Proof.
  destruct (Dict.get d k) as [v|] eqn:E.
  - split; [eauto|]. intros _.
    apply get_Some_In in E. apply (in_map fst) in E. exact E.
  - apply get_None_keys in E. split; [tauto|]. intros [v Hv]. discriminate.
Qed.

Lemma mem_true_keys d k : Dict.mem d k = true <-> In k (Dict.keys d).
Proof.
  unfold Dict.mem. rewrite in_keys_get.
  destruct (Dict.get d k); split; eauto; try discriminate.
  intros [v Hv]. discriminate.
Qed.

Lemma mem_false_keys d k : Dict.mem d k = false <-> ~ In k (Dict.keys d).
Proof.
  rewrite <- mem_true_keys. destruct (Dict.mem d k); split; congruence.
Qed.

Lemma In_wf_get d k v : Dict.wf d -> In (k, v) d -> Dict.get d k = Some v.
Proof.
  unfold Dict.wf, Dict.keys.
  induction d as [|[k' v'] d IH]; simpl; [tauto|].
  intros Hnd [E|Hin].
  - injection E as -> ->. now rewrite keqb_refl.
  - inversion Hnd as [|? ? Hnotin Hnd']; subst.
    destruct (keqb_spec k k') as [-> | Hne]; auto.
    exfalso. apply Hnotin. apply (in_map fst) in Hin. exact Hin.
Qed.

Lemma keys_set d k v :
  Dict.keys (Dict.set d k v)
  = if Dict.mem d k then Dict.keys d else Dict.keys d ++ [k].
Proof.
  unfold Dict.mem, Dict.keys.
  induction d as [|[k' v'] d IH]; simpl; auto.
  destruct (keqb k k') eqn:E; simpl; auto.
  rewrite IH. now destruct (Dict.get d k).
Qed.

Lemma in_keys_set d k k' v :
  In k' (Dict.keys (Dict.set d k v)) <-> In k' (Dict.keys d) \/ k' = k.
Proof.
  rewrite keys_set. destruct (Dict.mem d k) eqn:E.
  - apply mem_true_keys in E. split; [tauto|]. intros [Hin | ->]; auto.
  - rewrite in_app_iff. simpl. split; intros [Hin|Hin]; auto.
    destruct Hin as [<- | []]; auto.
Qed.

Lemma wf_set d k v : Dict.wf d -> Dict.wf (Dict.set d k v).
Proof.
  unfold Dict.wf. rewrite keys_set. destruct (Dict.mem d k) eqn:E; auto.
  apply mem_false_keys in E. intros Hnd.
  apply NoDup_app; auto.
  - constructor; [intros []|constructor].
  - intros x Hin [<- | []]. contradiction.
Qed.

Lemma wf_empty : Dict.wf (@Dict.empty K V).
Proof. constructor. Qed.

Lemma get_update d k k' (f : V -> V) :
  Dict.get (Dict.update d k f) k'
  = if keqb k' k then option_map f (Dict.get d k) else Dict.get d k'.
Proof.
  unfold Dict.update. destruct (Dict.get d k) as [v|] eqn:E.
  - rewrite get_set. reflexivity.
  - destruct (keqb_spec k' k) as [-> | Hne]; auto.
Qed.

Lemma keys_update d k (f : V -> V) :
  Dict.keys (Dict.update d k f) = Dict.keys d.
Proof.
  unfold Dict.update. destruct (Dict.get d k) as [v|] eqn:E; auto.
  rewrite keys_set. unfold Dict.mem. now rewrite E.
Qed.

Lemma wf_update d k (f : V -> V) : Dict.wf d -> Dict.wf (Dict.update d k f).
Proof. unfold Dict.wf. now rewrite keys_update. Qed.

Lemma wf_cons_inv d k v :
  Dict.wf ((k, v) :: d) -> ~ In k (Dict.keys d) /\ Dict.wf d.
Proof. unfold Dict.wf. simpl. intros Hnd. inversion Hnd; auto. Qed.

Lemma set_same d k v : Dict.get d k = Some v -> Dict.set d k v = d.
Proof.
induction d as [|[k' v'] d IH]; simpl; [discriminate|].
destruct (keqb k k'); intros E.
- now injection E as ->.
- now rewrite IH.
Qed.

Lemma set_set d k v v' : Dict.set (Dict.set d k v) k v' = Dict.set d k v'.
Proof.
induction d as [|[k0 v0] d IH]; simpl.
- now rewrite keqb_refl.
- destruct (keqb k k0) eqn:E; simpl; rewrite E; auto. now rewrite IH.
Qed.

Lemma set_fresh d k v : ~ In k (Dict.keys d) -> Dict.set d k v = d ++ [(k, v)].
Proof.
induction d as [|[k0 v0] d IH]; simpl; auto.
intros Hn. rewrite keqb_neq by (intros ->; tauto).
rewrite IH; auto.
Qed.

Lemma Forall_values_set (P : V -> Prop) d k v :
  Forall (fun item => P (snd item)) d -> P v ->
  Forall (fun item => P (snd item)) (Dict.set d k v).
Proof.
intros Hd Hv. induction d as [|[k0 v0] d IH]; simpl.
- constructor; auto.
- inversion Hd; subst. destruct (keqb k k0); constructor; auto.
Qed.

Lemma existsb_keqb_In (l : list K) k : existsb (keqb k) l = true <-> In k l.
Proof.
rewrite existsb_exists. split.
- intros [x [Hin E]]. apply keqb_eq in E. now subst.
- intros Hin. exists k. split; auto using keqb_refl.
Qed.

Lemma existsb_keys d k : existsb (keqb k) (Dict.keys d) = Dict.mem d k.
Proof.
unfold Dict.mem, Dict.keys. induction d as [|[k' v'] d IH]; simpl; auto.
destruct (keqb k k'); auto.
Qed.

Lemma distinctb_NoDup (l : list K) : distinctb l = true -> NoDup l.
Proof.
induction l as [|k l IH]; simpl; [constructor|].
intros E. apply andb_prop in E. destruct E as [Hk Hl].
constructor; auto.
rewrite <- existsb_keqb_In. now destruct (existsb (keqb k) l).
Qed.

End DictFacts.

Lemma grouped_wfb_sound (grouped : Grouped) :
  grouped_wfb grouped = true -> grouped_wf grouped.
Proof.
unfold grouped_wfb, grouped_wf. intros E.
apply andb_prop in E. destruct E as [Hk Hs]. split.
- now apply distinctb_NoDup.
- intros key samples Hin. rewrite forallb_forall in Hs.
  apply distinctb_NoDup. exact (Hs _ Hin).
Qed.

(** * [group_ct_values] *)

(** The type abbreviations of the program hide equal terms from [destruct]
    and [rewrite]; this shows them. *)
Ltac dict_types :=
  unfold Grouped, HousekeepingIndex, DeltaCtSet, MeanDeltaCt, DeltaDeltaCt,
    FoldChange in *;
  unfold SampleMap, GroupKey in *;
  unfold Dict.t in *.

Lemma group_row_get (grouped : Grouped) (row : Reading) (k : GroupKey) :
  Dict.get (group_row grouped row) k
  = if keqb k (condition row, gene row)
    then Some (Dict.set
                 (match Dict.get grouped k with
                  | Some samples => samples
                  | None => Dict.empty
                  end)
                 (sample_id row) (ct row))
    else Dict.get grouped k.
Proof.
  unfold group_row; cbv zeta.
  set (key := (condition row, gene row)).
  rewrite get_update.
  destruct (keqb_spec k key) as [-> | Hne].
  - unfold Dict.mem. destruct (Dict.get grouped key) as [samples|] eqn:E; simpl.
    + now rewrite E.
    + now rewrite get_set_eq.
  - destruct (Dict.mem grouped key); auto.
    apply get_set_neq. congruence.
Qed.

Lemma group_row_keys (grouped : Grouped) (row : Reading) (k : GroupKey) :
  In k (Dict.keys (group_row grouped row))
  <-> In k (Dict.keys grouped) \/ k = (condition row, gene row).
Proof.
  unfold group_row; cbv zeta. rewrite keys_update.
  destruct (Dict.mem grouped (condition row, gene row)) eqn:E.
  - apply mem_true_keys in E. split; [tauto|]. intros [Hin | ->]; auto.
  - apply in_keys_set.
Qed.

Lemma group_row_wf (grouped : Grouped) (row : Reading) :
  Dict.wf grouped -> Dict.wf (group_row grouped row).
Proof.
  intros Hwf. unfold group_row; cbv zeta. apply wf_update.
  destruct (Dict.mem grouped (condition row, gene row)); auto using wf_set.
Qed.

Lemma group_ct_values_snoc (data : list Reading) (row : Reading) :
  group_ct_values (data ++ [row]) = group_row (group_ct_values data) row.
Proof. unfold group_ct_values. now rewrite fold_left_app. Qed.

Lemma last_reading_snoc (data : list Reading) (row : Reading) (c g s : string) :
  last_reading (data ++ [row]) c g s
  = if reading_matches c g s row then Some row else last_reading data c g s.
Proof. unfold last_reading. now rewrite rev_unit. Qed.

Lemma group_ct_values_keys_wf (data : list Reading) :
  Dict.wf (group_ct_values data).
Proof.
  induction data as [|row data IH] using rev_ind.
  - apply wf_empty.
  - rewrite group_ct_values_snoc. now apply group_row_wf.
Qed.

Lemma group_ct_values_keys (data : list Reading) (k : GroupKey) :
  In k (Dict.keys (group_ct_values data))
  <-> exists row, In row data /\ (condition row, gene row) = k.
Proof.
  induction data as [|row data IH] using rev_ind.
  - simpl. split; [tauto|]. intros [row [[] _]].
  - rewrite group_ct_values_snoc, group_row_keys, IH. split.
    + intros [[r [Hin Hk]] | ->].
      * exists r. split; auto. apply in_or_app. now left.
      * exists row. split; auto. apply in_or_app. right. now left.
    + intros [r [Hin Hk]]. apply in_app_or in Hin.
      destruct Hin as [Hin | [-> | []]]; eauto.
Qed.

Lemma group_ct_values_samples_wf (data : list Reading) (k : GroupKey)
    (samples : SampleMap) :
  Dict.get (group_ct_values data) k = Some samples -> Dict.wf samples.
Proof.
  revert k samples. induction data as [|row data IH] using rev_ind;
    intros k samples.
  - discriminate.
  - rewrite group_ct_values_snoc, group_row_get.
    destruct (keqb k (condition row, gene row)); [|apply IH].
    intros E. injection E as <-. apply wf_set.
    destruct (Dict.get (group_ct_values data) k) as [old|] eqn:Eold.
    + exact (IH _ _ Eold).
    + apply wf_empty.
Qed.

Lemma reading_matches_key (c g s : string) (row : Reading) :
  reading_matches c g s row
  = keqb (c, g) (condition row, gene row) && keqb s (sample_id row).
Proof.
  unfold reading_matches; simpl.
  now rewrite (String.eqb_sym c), (String.eqb_sym g), (String.eqb_sym s).
Qed.

Lemma group_ct_values_lookup (data : list Reading) (c g s : string) :
  match Dict.get (group_ct_values data) (c, g) with
  | Some samples => Dict.get samples s
  | None => None
  end = option_map ct (last_reading data c g s).
Proof.
  induction data as [|row data IH] using rev_ind.
  - reflexivity.
  - rewrite group_ct_values_snoc, last_reading_snoc, group_row_get,
      reading_matches_key.
    dict_types.
    destruct (keqb (c, g) (condition row, gene row)); [|exact IH].
    rewrite get_set. destruct (keqb s (sample_id row)); [reflexivity|].
    rewrite andb_false_r, <- IH.
    now destruct (Dict.get _ (c, g)).
Qed.

(** C5. For every sequence of readings, also the empty one, the keys of
    [group_ct_values] are the distinct (condition, gene) pairs of the input,
    each once, every sample map holds each sample once, and the sample map
    of a key gives each sample the Ct of the last reading, in input order,
    with that condition, gene and sample: a later duplicate overwrites. *)
Theorem group_ct_values_spec (data : list Reading) :
  grouped_wf (group_ct_values data)
  /\ (forall k : GroupKey,
        In k (Dict.keys (group_ct_values data))
        <-> exists row, In row data /\ (condition row, gene row) = k)
  /\ (forall c g s : string,
        match Dict.get (group_ct_values data) (c, g) with
        | Some samples => Dict.get samples s
        | None => None
        end = option_map ct (last_reading data c g s)).
Proof.
  split; [split|split].
  - apply group_ct_values_keys_wf.
  - intros key samples Hin.
    apply (group_ct_values_samples_wf data key).
    apply In_wf_get; auto using group_ct_values_keys_wf.
  - apply group_ct_values_keys.
  - apply group_ct_values_lookup.
Qed.

(** * [compute_delta_ct] *)

Lemma housekeeping_samples_get (cond : string) (acc : HousekeepingIndex)
    (samples : SampleMap) (c s : string) :
  Dict.wf samples ->
  Dict.get (housekeeping_samples cond acc samples) (c, s)
  = if String.eqb c cond
    then match Dict.get samples s with
         | Some v => Some v
         | None => Dict.get acc (c, s)
         end
    else Dict.get acc (c, s).
Proof.
  revert acc. unfold housekeeping_samples.
  induction samples as [|[s0 v0] rest IH]; intros acc Hwf; simpl.
  - now destruct (String.eqb c cond).
  - apply wf_cons_inv in Hwf. destruct Hwf as [Hfresh Hwf].
    rewrite IH by assumption. rewrite get_set. simpl.
    destruct (String.eqb_spec c cond) as [-> | Hc]; simpl; auto.
    destruct (String.eqb_spec s s0) as [-> | Hs]; auto.
    apply get_None_keys in Hfresh. dict_types. now rewrite Hfresh.
Qed.

Lemma grouped_wf_cons_inv (key : GroupKey) (samples : SampleMap)
    (rest : Grouped) :
  grouped_wf ((key, samples) :: rest) ->
  Dict.wf samples /\ Dict.get rest key = None /\ grouped_wf rest.
Proof.
  intros [Hwf Hin]. apply wf_cons_inv in Hwf. destruct Hwf as [Hfresh Hwf].
  split; [|split].
  - apply (Hin key). now left.
  - now apply get_None_keys.
  - split; auto. intros k s Hks. apply (Hin k). now right.
Qed.

Lemma housekeeping_fold_get (hk : string) (grouped : Grouped)
    (acc : HousekeepingIndex) (c s : string) :
  grouped_wf grouped ->
  Dict.get (fold_left (housekeeping_group hk) grouped acc) (c, s)
  = match Dict.get grouped (c, hk) with
    | Some samples =>
        match Dict.get samples s with
        | Some v => Some v
        | None => Dict.get acc (c, s)
        end
    | None => Dict.get acc (c, s)
    end.
Proof.
  revert acc.
  induction grouped as [|[[c0 g0] smp] rest IH]; intros acc Hwf; simpl.
  - reflexivity.
  - apply grouped_wf_cons_inv in Hwf. destruct Hwf as [Hsmp [Hfresh Hwf]].
    rewrite IH by assumption.
    rewrite (String.eqb_sym hk g0).
    destruct (String.eqb_spec g0 hk) as [-> | Hg].
    + rewrite housekeeping_samples_get by assumption.
      destruct (String.eqb_spec c c0) as [-> | Hc]; simpl.
      * dict_types. now rewrite Hfresh.
      * reflexivity.
    + now rewrite andb_false_r.
Qed.

Lemma housekeeping_index_get (grouped : Grouped) (hk c s : string) :
  grouped_wf grouped ->
  Dict.get (housekeeping_index grouped hk) (c, s)
  = housekeeping_ct grouped hk c s.
Proof.
  intros Hwf. unfold housekeeping_index, housekeeping_ct.
  rewrite housekeeping_fold_get by assumption.
  destruct (Dict.get grouped (c, hk)) as [samples|]; auto.
  now destruct (Dict.get samples s).
Qed.

Lemma housekeeping_fold_none (hk : string) (grouped : Grouped)
    (acc : HousekeepingIndex) :
  (forall k, In k (Dict.keys grouped) -> snd k <> hk) ->
  fold_left (housekeeping_group hk) grouped acc = acc.
Proof.
  induction grouped as [|[[c0 g0] smp] rest IH]; intros Hno; simpl; auto.
  destruct (String.eqb_spec g0 hk) as [-> | Hg].
  - exfalso. apply (Hno (c0, hk)); [now left | reflexivity].
  - apply IH. intros k Hin. apply Hno. now right.
Qed.

Lemma delta_samples_fold (housekeeping : HousekeepingIndex) (cond : string)
    (key : GroupKey) (samples : SampleMap) (d : DeltaCtSet)
    (l : list F64.float) :
  Dict.get d key = Some l ->
  fold_left (delta_sample housekeeping cond key) samples d
  = Dict.set d key (l ++ delta_values housekeeping cond samples).
Proof.
  revert d l. induction samples as [|[s0 v0] rest IH]; intros d l Hget; simpl.
  - rewrite app_nil_r. symmetry. now apply set_same.
  - unfold delta_of_sample at 1; simpl.
    destruct (Dict.get housekeeping (cond, s0)) as [h|].
    + unfold Dict.update. rewrite Hget.
      rewrite (IH _ (l ++ [F64.sub v0 h])) by apply get_set_eq.
      now rewrite set_set, <- app_assoc.
    + now apply IH.
Qed.

Lemma delta_group_eq (housekeeping : HousekeepingIndex) (hk : string)
    (d : DeltaCtSet) (c g : string) (samples : SampleMap) :
  delta_group housekeeping hk d ((c, g), samples)
  = if String.eqb g hk then d
    else Dict.set d (c, g) (delta_values housekeeping c samples).
Proof.
  simpl. destruct (String.eqb g hk); auto.
  rewrite (@delta_samples_fold _ _ _ _ _ []) by apply get_set_eq.
  now rewrite set_set.
Qed.

Lemma delta_fold_get (housekeeping : HousekeepingIndex) (hk : string)
    (grouped : Grouped) (acc : DeltaCtSet) (c g : string) :
  Dict.wf grouped ->
  Dict.get (fold_left (delta_group housekeeping hk) grouped acc) (c, g)
  = match Dict.get grouped (c, g) with
    | Some samples =>
        if String.eqb g hk then Dict.get acc (c, g)
        else Some (delta_values housekeeping c samples)
    | None => Dict.get acc (c, g)
    end.
Proof.
  revert acc.
  induction grouped as [|[[c0 g0] smp] rest IH]; intros acc Hwf.
  - reflexivity.
  - apply wf_cons_inv in Hwf. destruct Hwf as [Hfresh Hwf].
    cbn [fold_left]. rewrite IH by assumption. rewrite delta_group_eq.
    cbn [Dict.get]. dict_types.
    destruct (keqb_spec (c, g) (c0, g0)) as [E | Hne].
    + injection E as -> ->. apply get_None_keys in Hfresh.
      rewrite Hfresh.
      destruct (String.eqb g0 hk); [reflexivity | apply get_set_eq].
    + assert (Hacc : Dict.get (if String.eqb g0 hk then acc
                               else Dict.set acc (c0, g0)
                                      (delta_values housekeeping c0 smp)) (c, g)
                     = Dict.get acc (c, g)).
      { destruct (String.eqb g0 hk); auto. apply get_set_neq. congruence. }
      dict_types. now rewrite Hacc.
Qed.

Lemma delta_fold_keys (housekeeping : HousekeepingIndex) (hk : string)
    (grouped : Grouped) (acc : DeltaCtSet) (k : GroupKey) :
  In k (Dict.keys (fold_left (delta_group housekeeping hk) grouped acc))
  <-> In k (Dict.keys acc) \/ (In k (Dict.keys grouped) /\ snd k <> hk).
Proof.
  revert acc.
  induction grouped as [|[[c0 g0] smp] rest IH]; intros acc.
  - simpl. tauto.
  - cbn [fold_left]. rewrite IH, delta_group_eq. simpl.
    destruct (String.eqb_spec g0 hk) as [-> | Hg].
    + split; [tauto|]. intros [Hin | [[<- | Hin] Hk]]; auto.
      now elim Hk.
    + rewrite in_keys_set. split.
      * intros [[Hin | ->] | [Hin Hk]]; auto.
      * intros [Hin | [[<- | Hin] Hk]]; auto.
Qed.

Lemma delta_fold_wf (housekeeping : HousekeepingIndex) (hk : string)
    (grouped : Grouped) (acc : DeltaCtSet) :
  Dict.wf acc ->
  Dict.wf (fold_left (delta_group housekeeping hk) grouped acc).
Proof.
  revert acc. induction grouped as [|[[c0 g0] smp] rest IH]; intros acc Hwf.
  - exact Hwf.
  - cbn [fold_left]. apply IH. rewrite delta_group_eq.
    destruct (String.eqb g0 hk); auto using wf_set.
Qed.

Lemma delta_fold_all_empty (hk : string) (grouped : Grouped) (acc : DeltaCtSet) :
  Forall (fun item => snd item = []) acc ->
  Forall (fun item => snd item = [])
         (fold_left (delta_group Dict.empty hk) grouped acc).
Proof.
  revert acc. induction grouped as [|[[c0 g0] smp] rest IH]; intros acc Hacc.
  - exact Hacc.
  - cbn [fold_left]. apply IH. rewrite delta_group_eq.
    destruct (String.eqb g0 hk); auto.
    apply (Forall_values_set (fun l => l = [])); auto.
    unfold delta_values. now induction smp.
Qed.

Lemma length_delta_values (housekeeping : HousekeepingIndex) (cond : string)
    (samples : SampleMap) :
  List.length (delta_values housekeeping cond samples)
  = List.length (matched_samples housekeeping cond samples).
Proof.
  unfold delta_values, matched_samples.
  induction samples as [|[s0 v0] rest IH]; simpl; auto.
  unfold delta_of_sample at 1, Dict.mem. simpl.
  destruct (Dict.get housekeeping (cond, s0)); simpl; auto.
Qed.

(** * [average_delta_ct] *)

Lemma average_fold_get (d : DeltaCtSet) (acc : MeanDeltaCt) (k : GroupKey) :
  Dict.wf d ->
  Dict.get (fold_left average_group d acc) k
  = match Dict.get d k with
    | Some (x :: l) =>
        Some (F64.div (F64.sum (x :: l)) (F64.of_nat (List.length (x :: l))))
    | _ => Dict.get acc k
    end.
Proof.
  revert acc. induction d as [|[k0 l0] rest IH]; intros acc Hwf.
  - reflexivity.
  - apply wf_cons_inv in Hwf. destruct Hwf as [Hfresh Hwf].
    cbn [fold_left Dict.get]. rewrite IH by assumption. dict_types.
    destruct (keqb_spec k k0) as [-> | Hne].
    + apply get_None_keys in Hfresh. rewrite Hfresh.
      destruct l0 as [|x l0]; [reflexivity | apply get_set_eq].
    + assert (Hacc : Dict.get (average_group acc (k0, l0)) k = Dict.get acc k).
      { destruct l0 as [|x l0]; [reflexivity|]. apply get_set_neq. congruence. }
      dict_types. now rewrite Hacc.
Qed.

Lemma average_all_empty (d : DeltaCtSet) (acc : MeanDeltaCt) :
  Forall (fun item => snd item = []) d -> fold_left average_group d acc = acc.
Proof.
  revert acc. induction d as [|[k0 l0] rest IH]; intros acc Hall; auto.
  inversion Hall as [|? ? Hl0 Hrest]; subst. simpl in Hl0. subst l0.
  cbn [fold_left]. now apply IH.
Qed.

Lemma average_on_fold_get (alg : F64.SumAlgorithm) (d : DeltaCtSet)
    (acc : MeanDeltaCt) (k : GroupKey) :
  Dict.wf d ->
  Dict.get (fold_left (average_group_on alg) d acc) k
  = match Dict.get d k with
    | Some (x :: l) =>
        Some (F64.div (F64.sum_of alg (x :: l))
                      (F64.of_nat (List.length (x :: l))))
    | _ => Dict.get acc k
    end.
Proof.
  revert acc. induction d as [|[k0 l0] rest IH]; intros acc Hwf.
  - reflexivity.
  - apply wf_cons_inv in Hwf. destruct Hwf as [Hfresh Hwf].
    cbn [fold_left Dict.get]. rewrite IH by assumption.
    assert (Hacc : k <> k0 ->
                   Dict.get (average_group_on alg acc (k0, l0)) k
                   = Dict.get acc k).
    { intros Hne. destruct l0 as [|x l0]; [reflexivity|].
      apply get_set_neq. congruence. }
    dict_types.
    destruct (keqb_spec k k0) as [-> | Hne].
    + apply get_None_keys in Hfresh. rewrite Hfresh.
      destruct l0 as [|x l0]; [reflexivity | apply get_set_eq].
    + now rewrite (Hacc Hne).
Qed.

Lemma average_on_left_to_right (d : DeltaCtSet) (acc : MeanDeltaCt) :
  fold_left (average_group_on F64.LeftToRightSum) d acc
  = fold_left average_group d acc.
Proof.
  revert acc. induction d as [|[k0 l0] rest IH]; intros acc.
  - reflexivity.
  - cbn [fold_left]. apply IH.
Qed.

(** C6. For every delta-Ct set and either summation of builtin [sum] (the
    left-to-right one of CPython up to 3.11, the compensated one from 3.12
    on), the output of [average_delta_ct] has an entry for a key exactly
    when the key's sequence is not empty, and the entry is the sum of the
    sequence divided by its length; a key with an empty sequence is absent,
    not NaN and not zero.  [average_delta_ct] is the left-to-right case. *)
Theorem average_delta_ct_spec (alg : F64.SumAlgorithm) (d : DeltaCtSet)
    (k : GroupKey) :
  Dict.wf d ->
  Dict.get (average_delta_ct_on alg d) k
  = match Dict.get d k with
    | Some (x :: l) =>
        Some (F64.div (F64.sum_of alg (x :: l))
                      (F64.of_nat (List.length (x :: l))))
    | Some [] => None
    | None => None
    end
  /\ average_delta_ct_on F64.LeftToRightSum d = average_delta_ct d.
Proof.
  intros Hwf. split.
  - unfold average_delta_ct_on. rewrite average_on_fold_get by assumption.
    now destruct (Dict.get d k) as [[|x l]|].
  - apply average_on_left_to_right.
Qed.

(** * Claims about [compute_delta_ct] *)

Lemma compute_delta_ct_in_keys (grouped : Grouped) (hk : string) (k : GroupKey) :
  In k (Dict.keys (compute_delta_ct grouped hk))
  <-> In k (Dict.keys grouped) /\ snd k <> hk.
Proof.
  unfold compute_delta_ct; cbv zeta. rewrite delta_fold_keys. simpl. tauto.
Qed.

(** C9. The keys of the output of [compute_delta_ct] are the GroupKeys of
    the input whose gene is not the housekeeping gene: each of them is
    there, each once, also when its sequence is empty, and no key of the
    housekeeping gene is. *)
Theorem compute_delta_ct_keys (grouped : Grouped) (hk : string) :
  Dict.wf (compute_delta_ct grouped hk)
  /\ forall k : GroupKey,
       In k (Dict.keys (compute_delta_ct grouped hk))
       <-> In k (Dict.keys grouped) /\ snd k <> hk.
Proof.
  split.
  - unfold compute_delta_ct; cbv zeta. apply delta_fold_wf, wf_empty.
  - apply compute_delta_ct_in_keys.
Qed.

(** C4. For a grouped input, a key (cond, g) with g not the housekeeping
    gene and its sample map: the housekeeping index holds, for a sample of
    [cond], the Ct the housekeeping gene has for that sample under [cond];
    the delta-Ct sequence of the key is, in the order of the sample map,
    [ct - hk_ct] for each sample the index has and nothing for a sample it
    lacks ([delta_values]); its length is the number of samples of the key
    that the index has ([matched_samples]). *)
Theorem compute_delta_ct_samples (grouped : Grouped) (hk c g : string)
    (samples : SampleMap) :
  grouped_wf grouped ->
  g <> hk ->
  Dict.get grouped (c, g) = Some samples ->
  (forall s, Dict.get (housekeeping_index grouped hk) (c, s)
             = housekeeping_ct grouped hk c s)
  /\ Dict.get (compute_delta_ct grouped hk) (c, g)
     = Some (delta_values (housekeeping_index grouped hk) c samples)
  /\ List.length (delta_values (housekeeping_index grouped hk) c samples)
     = List.length (matched_samples (housekeeping_index grouped hk) c samples).
Proof.
  intros Hwf Hg Hget. split; [|split].
  - intros s. now apply housekeeping_index_get.
  - unfold compute_delta_ct; cbv zeta.
    rewrite delta_fold_get by apply Hwf. dict_types. rewrite Hget.
    apply String.eqb_neq in Hg. now rewrite Hg.
  - apply length_delta_values.
Qed.

(** C3, as the code has it. When no GroupKey of the input has the
    housekeeping gene, [compute_delta_ct] returns every key of the input
    with an empty delta-Ct sequence, and [average_delta_ct] of that is the
    empty mapping. *)
Theorem compute_delta_ct_no_housekeeping (grouped : Grouped) (hk : string) :
  (forall k, In k (Dict.keys grouped) -> snd k <> hk) ->
  (forall k, In k (Dict.keys (compute_delta_ct grouped hk))
             <-> In k (Dict.keys grouped))
  /\ (forall k l, Dict.get (compute_delta_ct grouped hk) k = Some l -> l = [])
  /\ average_delta_ct (compute_delta_ct grouped hk) = Dict.empty.
Proof.
  intros Hno.
  assert (Hall : Forall (fun item => snd item = []) (compute_delta_ct grouped hk)).
  { unfold compute_delta_ct, housekeeping_index; cbv zeta.
    rewrite housekeeping_fold_none by assumption.
    apply delta_fold_all_empty. constructor. }
  split; [|split].
  - intros k. rewrite compute_delta_ct_in_keys.
    split; [tauto|]. intros Hin. split; auto.
  - intros k l Hget. apply get_Some_In in Hget.
    rewrite Forall_forall in Hall. exact (Hall _ Hget).
  - unfold average_delta_ct. now apply average_all_empty.
Qed.

(** * [compute_ddct] *)

Lemma ddct_key_get (mean_delta_ct : MeanDeltaCt) (gene : string)
    (control_dct : F64.float) (ddct : DeltaDeltaCt) (key k : GroupKey) :
  Dict.get (ddct_key mean_delta_ct gene control_dct ddct key) k
  = if keqb k key && String.eqb (snd key) gene
    then match Dict.get mean_delta_ct key with
         | Some v => Some (F64.sub v control_dct)
         | None => Dict.get ddct k
         end
    else Dict.get ddct k.
Proof.
  destruct key as [c0 g0]. unfold ddct_key. cbn [snd].
  destruct (String.eqb g0 gene); cbn [negb].
  - rewrite andb_true_r.
    destruct (Dict.get mean_delta_ct (c0, g0)) as [v|].
    + apply get_set.
    + now destruct (keqb k (c0, g0)).
  - now rewrite andb_false_r.
Qed.

Lemma ddct_key_fold_get (mean_delta_ct : MeanDeltaCt) (gene : string)
    (control_dct : F64.float) (ks : list GroupKey) (ddct : DeltaDeltaCt)
    (k : GroupKey) :
  Dict.get (fold_left (ddct_key mean_delta_ct gene control_dct) ks ddct) k
  = if String.eqb (snd k) gene && existsb (keqb k) ks
    then match Dict.get mean_delta_ct k with
         | Some v => Some (F64.sub v control_dct)
         | None => Dict.get ddct k
         end
    else Dict.get ddct k.
Proof.
  revert ddct. induction ks as [|key0 ks IH]; intros ddct.
  - simpl. now rewrite andb_false_r.
  - cbn [fold_left existsb]. rewrite IH, ddct_key_get.
    destruct (keqb_spec k key0) as [-> | Hne]; cbn [andb orb].
    + destruct (String.eqb (snd key0) gene); cbn [andb].
      * now destruct (existsb _ ks), (Dict.get mean_delta_ct key0).
      * reflexivity.
    + reflexivity.
Qed.

Lemma ddct_gene_get (mean_delta_ct : MeanDeltaCt) (control_condition : string)
    (ddct : DeltaDeltaCt) (gene : string) (k : GroupKey) :
  Dict.get (ddct_gene mean_delta_ct control_condition ddct gene) k
  = match Dict.get mean_delta_ct (control_condition, gene),
          Dict.get mean_delta_ct k with
    | Some control_dct, Some v =>
        if String.eqb (snd k) gene then Some (F64.sub v control_dct)
        else Dict.get ddct k
    | _, _ => Dict.get ddct k
    end.
Proof.
  unfold ddct_gene.
  destruct (Dict.get mean_delta_ct (control_condition, gene)) as [cd|].
  - rewrite ddct_key_fold_get, existsb_keys. unfold Dict.mem.
    destruct (Dict.get mean_delta_ct k) as [v|].
    + now rewrite andb_true_r.
    + now rewrite andb_false_r.
  - now destruct (Dict.get mean_delta_ct k).
Qed.

Lemma ddct_fold_get (mean_delta_ct : MeanDeltaCt) (control_condition : string)
    (genes : list string) (ddct : DeltaDeltaCt) (c g : string) :
  Dict.get (fold_left (ddct_gene mean_delta_ct control_condition) genes ddct) (c, g)
  = if existsb (String.eqb g) genes
    then match Dict.get mean_delta_ct (control_condition, g),
               Dict.get mean_delta_ct (c, g) with
         | Some control_dct, Some v => Some (F64.sub v control_dct)
         | _, _ => Dict.get ddct (c, g)
         end
    else Dict.get ddct (c, g).
Proof.
  revert ddct. induction genes as [|g0 genes IH]; intros ddct.
  - reflexivity.
  - cbn [fold_left existsb]. rewrite IH, ddct_gene_get. cbn [snd].
    destruct (String.eqb_spec g g0) as [<- | Hg]; cbn [orb].
    + destruct (Dict.get mean_delta_ct (control_condition, g)) as [cd|],
               (Dict.get mean_delta_ct (c, g)) as [v|];
        now destruct (existsb _ genes).
    + destruct (Dict.get mean_delta_ct (control_condition, g)) as [cd|],
               (Dict.get mean_delta_ct (control_condition, g0)) as [cd0|],
               (Dict.get mean_delta_ct (c, g)) as [v|];
        reflexivity.
Qed.

(** What [compute_ddct] holds for a key, whatever the order of the genes. *)
Lemma compute_ddct_get (genes : list string) (mean_delta_ct : MeanDeltaCt)
    (control_condition c g : string) :
  Dict.get (compute_ddct genes mean_delta_ct control_condition) (c, g)
  = if existsb (String.eqb g) genes
    then match Dict.get mean_delta_ct (control_condition, g),
               Dict.get mean_delta_ct (c, g) with
         | Some control_dct, Some v => Some (F64.sub v control_dct)
         | _, _ => None
         end
    else None.
Proof. unfold compute_ddct. now rewrite ddct_fold_get. Qed.

Lemma ddct_gene_wf (mean_delta_ct : MeanDeltaCt) (control_condition : string)
    (ddct : DeltaDeltaCt) (gene : string) :
  Dict.wf ddct -> Dict.wf (ddct_gene mean_delta_ct control_condition ddct gene).
Proof.
  unfold ddct_gene.
  destruct (Dict.get mean_delta_ct (control_condition, gene)) as [cd|]; auto.
  generalize (Dict.keys mean_delta_ct). intros ks. revert ddct.
  induction ks as [|[c0 g0] ks IH]; intros ddct Hwf; auto.
  cbn [fold_left]. apply IH. unfold ddct_key.
  destruct (negb (String.eqb g0 gene)); auto.
  destruct (Dict.get mean_delta_ct (c0, g0)); auto using wf_set.
Qed.

Lemma compute_ddct_wf (genes : list string) (mean_delta_ct : MeanDeltaCt)
    (control_condition : string) :
  Dict.wf (compute_ddct genes mean_delta_ct control_condition).
Proof.
  unfold compute_ddct. generalize (@wf_empty GroupKey F64.float).
  generalize (@Dict.empty GroupKey F64.float).
  induction genes as [|g0 genes IH]; intros ddct Hwf; auto.
  cbn [fold_left]. apply IH. now apply ddct_gene_wf.
Qed.

Lemma compute_ddct_empty (genes : list string) (control_condition : string) :
  compute_ddct genes Dict.empty control_condition = Dict.empty.
Proof. unfold compute_ddct. now induction genes. Qed.

Lemma in_genes_of (mean_delta_ct : MeanDeltaCt) (c g : string) (v : F64.float) :
  Dict.get mean_delta_ct (c, g) = Some v -> In g (genes_of mean_delta_ct).
Proof.
  intros Hget. unfold genes_of.
  apply (in_map (fun key : GroupKey => snd key) _ (c, g)).
  apply in_keys_get. eauto.
Qed.

Lemma set_iteration_single {A : Type} (s order : list A) (x : A) :
  In x s -> (forall y, In y s -> y = x) ->
  set_iteration s order -> order = [x].
Proof.
  intros Hx Hall [Hnd Hiff].
  assert (Hord : forall y, In y order -> y = x) by (intros y Hy; apply Hall, Hiff, Hy).
  destruct order as [|a order].
  - apply Hiff in Hx. destruct Hx.
  - rewrite (Hord a) by now left.
    destruct order as [|b order]; auto.
    exfalso. inversion Hnd as [|? ? Hnotin _]; subst. apply Hnotin.
    rewrite (Hord a), <- (Hord b); simpl; auto.
Qed.

(** * Binary64 facts *)

Lemma sub_diag (x : F64.float) : F64.is_finite x = true -> F64.sub x x = F64.zero.
Proof.
  destruct x as [s | s | | s m e]; try discriminate; intros _.
  - now destruct s.
  - unfold F64.sub, SFsub. rewrite Z.min_id, Z.sub_diag. reflexivity.
Qed.

(** * [compute_fold_change] *)

Section FoldChangeFacts.

Variable pow2_frac : F64.float -> F64.float.

Lemma py_pow2_opp_zero : py_pow2 pow2_frac (F64.opp F64.zero) = Some F64.one.
Proof. reflexivity. Qed.

Lemma py_pow2_integral (y p : F64.float) (n : Z) :
  F64.is_finite y = true ->
  F64.integral_value y = Some n ->
  py_pow2 pow2_frac y = Some p ->
  p = F64.pow2_Z n.
Proof.
  intros Hy Hn. destruct y as [s | s | | s m e]; try discriminate.
  - injection Hn as <-. now intros [= <-].
  - cbn [py_pow2]. unfold libm_pow2. rewrite Hn.
    destruct (F64.is_infinity _); [discriminate|]. now intros [= <-].
Qed.

Lemma is_finite_opp (v : F64.float) :
  F64.is_finite (F64.opp v) = F64.is_finite v.
Proof. now destruct v. Qed.

Lemma fold_change_loop_get (items : DeltaDeltaCt) (acc fc : FoldChange)
    (k : GroupKey) :
  Dict.wf items ->
  fold_change_loop pow2_frac items acc = Some fc ->
  Dict.get fc k
  = match Dict.get items k with
    | Some v => py_pow2 pow2_frac (F64.opp v)
    | None => Dict.get acc k
    end.
Proof.
  revert acc. induction items as [|[k0 v0] rest IH]; intros acc Hwf.
  - simpl. now intros [= ->].
  - apply wf_cons_inv in Hwf. destruct Hwf as [Hfresh Hwf].
    cbn [fold_change_loop Dict.get].
    destruct (py_pow2 pow2_frac (F64.opp v0)) as [p|] eqn:Ep; [|discriminate].
    intros Hloop. rewrite (IH _ Hwf Hloop). dict_types.
    destruct (keqb_spec k k0) as [-> | Hne].
    + apply get_None_keys in Hfresh. rewrite Hfresh. now rewrite get_set_eq.
    + rewrite get_set_neq by congruence. reflexivity.
Qed.

Lemma fold_change_loop_keys (items : DeltaDeltaCt) (acc fc : FoldChange) :
  NoDup (Dict.keys acc ++ Dict.keys items) ->
  fold_change_loop pow2_frac items acc = Some fc ->
  Dict.keys fc = Dict.keys acc ++ Dict.keys items.
Proof.
  revert acc. induction items as [|[k0 v0] rest IH]; intros acc Hnd.
  - simpl. intros [= ->]. now rewrite app_nil_r.
  - cbn [fold_change_loop].
    destruct (py_pow2 pow2_frac (F64.opp v0)) as [p|]; [|discriminate].
    assert (Hfresh : ~ In k0 (Dict.keys acc)).
    { apply NoDup_remove_2 in Hnd. intros Hin. apply Hnd.
      apply in_or_app. now left. }
    rewrite set_fresh by exact Hfresh. intros Hloop.
    rewrite (IH (acc ++ [(k0, p)])); auto; unfold Dict.keys in *;
      rewrite map_app, <- app_assoc; auto.
Qed.

Lemma fold_change_loop_in_keys (items : DeltaDeltaCt) (acc fc : FoldChange)
    (k : GroupKey) :
  fold_change_loop pow2_frac items acc = Some fc ->
  In k (Dict.keys fc) <-> In k (Dict.keys acc) \/ In k (Dict.keys items).
Proof.
  revert acc. induction items as [|[k0 v0] rest IH]; intros acc.
  - simpl. intros [= ->]. tauto.
  - cbn [fold_change_loop].
    destruct (py_pow2 pow2_frac (F64.opp v0)) as [p|]; [|discriminate].
    intros Hloop. rewrite (IH _ Hloop), in_keys_set. simpl.
    split; intros Hk; repeat destruct Hk as [Hk | Hk]; subst; auto.
Qed.

Lemma fold_change_loop_None (items : DeltaDeltaCt) (acc : FoldChange) :
  fold_change_loop pow2_frac items acc = None
  <-> exists k v, In (k, v) items /\ py_pow2 pow2_frac (F64.opp v) = None.
Proof.
  revert acc. induction items as [|[k0 v0] rest IH]; intros acc.
  - simpl. split; [discriminate|]. intros [k [v [[] _]]].
  - cbn [fold_change_loop].
    destruct (py_pow2 pow2_frac (F64.opp v0)) as [p|] eqn:Ep.
    + rewrite IH. split.
      * intros [k [v [Hin Hp]]]. exists k, v. split; auto. now right.
      * intros [k [v [[E | Hin] Hp]]]; [|eauto].
        injection E as <- <-. congruence.
    + split; auto. intros _. exists k0, v0. split; auto. now left.
Qed.

Lemma compute_fold_change_get_None (ddct : DeltaDeltaCt) (fc : FoldChange)
    (k : GroupKey) :
  compute_fold_change pow2_frac ddct = Some fc ->
  Dict.get ddct k = None -> Dict.get fc k = None.
Proof.
  intros Hfc Hk. apply get_None_keys. apply get_None_keys in Hk.
  rewrite (fold_change_loop_in_keys _ _ _ k Hfc). simpl. tauto.
Qed.

End FoldChangeFacts.

(** * Powers of two between the whole exponents *)

Lemma pow2_Z_range_exact :
  forallb (fun k => is_pow2 (Z.of_nat k - 1074) (F64.pow2_Z (Z.of_nat k - 1074)))
          (seq 0 2098) = true.
Proof. vm_compute. reflexivity. Qed.

(** Between [2^-1074] and [2^1023], [pow2_Z n] is the number [m * 2^e]
    with [m * 2^e = 2^n]. *)
Lemma pow2_Z_exact (n : Z) :
  -1074 <= n <= 1023 ->
  exists m e, F64.pow2_Z n = S754_finite false m e
              /\ e <= n /\ Zpos m = 2 ^ (n - e).
Proof.
  intros Hn. pose proof pow2_Z_range_exact as Hall.
  rewrite forallb_forall in Hall.
  specialize (Hall (Z.to_nat (n + 1074))).
  replace (Z.of_nat (Z.to_nat (n + 1074)) - 1074) with n in Hall by lia.
  assert (Hx : is_pow2 n (F64.pow2_Z n) = true) by (apply Hall, in_seq; lia).
  unfold is_pow2 in Hx.
  destruct (F64.pow2_Z n) as [s | s | | s m e]; try discriminate.
  destruct s; try discriminate.
  apply andb_prop in Hx. destruct Hx as [He Hm].
  exists m, e. repeat split; [now apply Z.leb_le | now apply Z.eqb_eq].
Qed.

Lemma pow2_Z_low (n : Z) : n < -1074 -> F64.pow2_Z n = F64.zero.
Proof.
  intros Hn. unfold F64.pow2_Z.
  replace (1023 <? n) with false by (symmetry; apply Z.ltb_ge; lia).
  destruct (n <? -1075) eqn:E; auto.
  apply Z.ltb_ge in E. replace n with (-1075) by lia. reflexivity.
Qed.

Lemma pow2_Z_high (n : Z) : 1023 < n -> F64.pow2_Z n = F64.infinity.
Proof.
  intros Hn. unfold F64.pow2_Z. apply Z.ltb_lt in Hn. now rewrite Hn.
Qed.

Lemma pow2_Z_shape (n : Z) :
  F64.pow2_Z n = F64.zero \/ F64.pow2_Z n = F64.infinity
  \/ exists m e, F64.pow2_Z n = S754_finite false m e.
Proof.
  destruct (Z_lt_le_dec 1023 n) as [Hhi | Hhi].
  - right. left. now apply pow2_Z_high.
  - destruct (Z_lt_le_dec n (-1074)) as [Hlo | Hlo].
    + left. now apply pow2_Z_low.
    + right. right. destruct (pow2_Z_exact n) as [m [e [Hp _]]]; eauto.
Qed.

Lemma pow2_Z_not_infinite (n : Z) :
  n <= 1023 -> F64.is_infinity (F64.pow2_Z n) = false.
Proof.
  intros Hn. destruct (Z_lt_le_dec n (-1074)) as [Hlo | Hlo].
  - now rewrite pow2_Z_low.
  - destruct (pow2_Z_exact n) as [m [e [Hp _]]]; [lia|]. now rewrite Hp.
Qed.

Lemma floor_Z_integral (y : F64.float) (n : Z) :
  F64.integral_value y = Some n -> F64.floor_Z y = n.
Proof.
  destruct y as [s | s | | s m e]; try discriminate.
  - now intros [= <-].
  - unfold F64.integral_value, F64.floor_Z.
    destruct (0 <=? e) eqn:He; [now intros [= <-]|].
    destruct (Zpos m mod 2 ^ (- e) =? 0) eqn:Hm; [|discriminate].
    intros [= <-]. apply Z.eqb_eq in Hm. apply Z.leb_gt in He.
    destruct s; cbn [cond_Zopp]; auto.
    apply Z.div_opp_l_z; auto.
    apply Z.pow_nonzero; lia.
Qed.

(** What lies at or above a power of two is not negative, and is positive
    when the power is. *)
Lemma above_pow2_Z (n : Z) (p : F64.float) :
  F64.leb (F64.pow2_Z n) p = true ->
  F64.leb F64.zero p = true
  /\ (-1074 <= n -> F64.ltb F64.zero p = true).
Proof.
  intros Hle. destruct (pow2_Z_shape n) as [H | [H | [m [e H]]]].
  - rewrite H in Hle. split; auto.
    intros Hn. destruct (Z_lt_le_dec 1023 n) as [Hhi | Hhi].
    + rewrite pow2_Z_high in H by assumption. discriminate.
    + destruct (pow2_Z_exact n) as [m [e [Hp _]]]; [lia|].
      rewrite Hp in H. discriminate.
  - rewrite H in Hle.
    destruct p as [[|] | [|] | | [|] m e]; try discriminate; auto.
  - rewrite H in Hle.
    destruct p as [[|] | [|] | | [|] m' e']; try discriminate; auto.
Qed.

(** What lies between two powers of two, the upper one finite, is not
    infinite. *)
Lemma between_pow2_Z_not_infinite (n n' : Z) (p : F64.float) :
  n' <= 1023 ->
  F64.leb (F64.pow2_Z n) p = true ->
  F64.leb p (F64.pow2_Z n') = true ->
  F64.is_infinity p = false.
Proof.
  intros Hn' Hlo Hhi.
  destruct p as [s | [|] | | s m e]; auto.
  - destruct (pow2_Z_shape n) as [H | [H | [m [e H]]]];
      rewrite H in Hlo; discriminate.
  - pose proof (pow2_Z_not_infinite n' Hn') as Hfin.
    destruct (F64.pow2_Z n') as [s | s | | s m e]; try discriminate.
Qed.

Lemma pow2_Z_leb_refl (n : Z) : F64.leb (F64.pow2_Z n) (F64.pow2_Z n) = true.
Proof.
  destruct (pow2_Z_shape n) as [H | [H | [m [e H]]]]; rewrite H; auto.
  unfold F64.leb, SFleb, SFcompare.
  now rewrite Z.compare_refl, Pos.compare_cont_refl.
Qed.

Lemma pow2_Z_range_succ :
  forallb (fun k => F64.leb (F64.pow2_Z (Z.of_nat k - 1076))
                            (F64.pow2_Z (Z.of_nat k - 1076 + 1)))
          (seq 0 2099) = true.
Proof. vm_compute. reflexivity. Qed.

Lemma pow2_Z_leb_succ (n : Z) :
  F64.leb (F64.pow2_Z n) (F64.pow2_Z (n + 1)) = true.
Proof.
  destruct (Z_lt_le_dec 1022 n) as [Hhi | Hhi].
  - rewrite (pow2_Z_high (n + 1)) by lia.
    destruct (pow2_Z_shape n) as [H | [H | [m [e H]]]]; now rewrite H.
  - destruct (Z_lt_le_dec n (-1076)) as [Hlo | Hlo].
    + rewrite !pow2_Z_low by lia. reflexivity.
    + pose proof pow2_Z_range_succ as Hall.
      rewrite forallb_forall in Hall.
      specialize (Hall (Z.to_nat (n + 1076))).
      replace (Z.of_nat (Z.to_nat (n + 1076)) - 1076) with n in Hall by lia.
      apply Hall. apply in_seq. lia.
Qed.

(** The stand-in of the examples lies between the powers of the whole
    exponents around its argument. *)
Lemma floor_pow2_frac_between (y : F64.float) :
  F64.leb (F64.pow2_Z (F64.floor_Z y)) (floor_pow2_frac y) = true
  /\ F64.leb (floor_pow2_frac y) (F64.pow2_Z (F64.floor_Z y + 1)) = true.
Proof.
  unfold floor_pow2_frac. split.
  - apply pow2_Z_leb_refl.
  - apply pow2_Z_leb_succ.
Qed.

Section PowerBetween.

Variable pow2_frac : F64.float -> F64.float.

(** The C library's power at an exponent that is not a whole number lies
    between the powers of two of the whole numbers around it. *)
Hypothesis pow2_frac_between :
  forall y, F64.is_finite y = true -> F64.integral_value y = None ->
    F64.leb (F64.pow2_Z (F64.floor_Z y)) (pow2_frac y) = true
    /\ F64.leb (pow2_frac y) (F64.pow2_Z (F64.floor_Z y + 1)) = true.

Lemma libm_pow2_above_floor (y : F64.float) :
  F64.is_finite y = true ->
  F64.leb (F64.pow2_Z (F64.floor_Z y)) (libm_pow2 pow2_frac y) = true.
Proof.
  intros Hy. unfold libm_pow2.
  destruct (F64.integral_value y) as [n|] eqn:E.
  - rewrite (floor_Z_integral y n E). apply pow2_Z_leb_refl.
  - now apply pow2_frac_between.
Qed.

Lemma libm_pow2_not_infinite (y : F64.float) :
  F64.is_finite y = true ->
  F64.floor_Z y < 1023 ->
  F64.is_infinity (libm_pow2 pow2_frac y) = false.
Proof.
  intros Hy Hfl. unfold libm_pow2.
  destruct (F64.integral_value y) as [n|] eqn:E.
  - apply pow2_Z_not_infinite. rewrite <- (floor_Z_integral y n E). lia.
  - destruct (pow2_frac_between y Hy E) as [Hlo Hhi].
    apply (between_pow2_Z_not_infinite (F64.floor_Z y) (F64.floor_Z y + 1));
      auto. lia.
Qed.

(** [2 ** y] for finite [y]: not negative, and positive from [2^-1074]
    on. *)
Lemma py_pow2_positive (y p : F64.float) :
  F64.is_finite y = true ->
  py_pow2 pow2_frac y = Some p ->
  F64.leb F64.zero p = true
  /\ (-1074 <= F64.floor_Z y -> F64.ltb F64.zero p = true).
Proof.
  intros Hy Hp. destruct y as [s | s | | s m e]; try discriminate.
  - injection Hp as <-. split; reflexivity.
  - cbn [py_pow2] in Hp.
    destruct (F64.is_infinity _); [discriminate|]. injection Hp as <-.
    apply above_pow2_Z. now apply libm_pow2_above_floor.
Qed.

(** [2 ** y] raises nothing when [y] is not finite or is below 1023. *)
Lemma py_pow2_returns (y : F64.float) :
  (F64.is_finite y = true -> F64.floor_Z y < 1023) ->
  py_pow2 pow2_frac y <> None.
Proof.
  intros Hy. destruct y as [s | [|] | | s m e]; try discriminate.
  cbn [py_pow2]. rewrite libm_pow2_not_infinite; auto. discriminate.
Qed.

End PowerBetween.

(** * Claims about [compute_ddct] and [compute_fold_change] *)

Lemma existsb_eqb_In (g : string) (genes : list string) :
  In g genes -> existsb (String.eqb g) genes = true.
Proof.
  intros Hin. apply existsb_exists. exists g. split; auto using String.eqb_refl.
Qed.

Lemma fold_change_underflow (pow2_frac : F64.float -> F64.float) :
  compute_fold_change pow2_frac ddct_underflow
  = Some [(("treated", "Bax"), F64.zero)].
Proof. reflexivity. Qed.

Section Claims.

Variable pow2_frac : F64.float -> F64.float.

(** C2. When the mean delta-Ct mapping has no entry for
    (control condition, g), the output of [compute_ddct] has no entry
    (c, g) for any condition c, also for a condition that has a mean for g,
    and neither has the output of [compute_fold_change]. *)
Theorem missing_control_excludes_gene (genes : list string)
    (mean_delta_ct : MeanDeltaCt) (control_condition g : string) :
  Dict.get mean_delta_ct (control_condition, g) = None ->
  forall c : string,
    Dict.get (compute_ddct genes mean_delta_ct control_condition) (c, g) = None
    /\ forall fc,
         compute_fold_change pow2_frac
           (compute_ddct genes mean_delta_ct control_condition) = Some fc ->
         Dict.get fc (c, g) = None.
Proof.
  intros Hctl c.
  assert (Hdd : Dict.get (compute_ddct genes mean_delta_ct control_condition)
                         (c, g) = None).
  { rewrite compute_ddct_get. dict_types. rewrite Hctl.
    now destruct (existsb _ genes). }
  split; [exact Hdd|].
  intros fc Hfc.
  exact (compute_fold_change_get_None pow2_frac _ fc (c, g) Hfc Hdd).
Qed.

(** C7, as the code has it. For every gene g whose entry
    (control condition, g) of the mean delta-Ct mapping is a finite number,
    the output of [compute_ddct] has the key (control condition, g) with
    value 0.0 exactly, and [compute_fold_change], whenever it returns, maps
    that key to 1.0 exactly. *)
Theorem control_self_comparison (genes : list string)
    (mean_delta_ct : MeanDeltaCt) (control_condition g : string)
    (m : F64.float) :
  set_iteration (genes_of mean_delta_ct) genes ->
  Dict.get mean_delta_ct (control_condition, g) = Some m ->
  F64.is_finite m = true ->
  Dict.get (compute_ddct genes mean_delta_ct control_condition)
           (control_condition, g) = Some F64.zero
  /\ forall fc,
       compute_fold_change pow2_frac
         (compute_ddct genes mean_delta_ct control_condition) = Some fc ->
       Dict.get fc (control_condition, g) = Some F64.one.
Proof.
  intros [_ Hgenes] Hctl Hfin.
  assert (Hdd : Dict.get (compute_ddct genes mean_delta_ct control_condition)
                         (control_condition, g) = Some F64.zero).
  { rewrite compute_ddct_get.
    rewrite existsb_eqb_In by (apply Hgenes; exact (in_genes_of _ _ _ _ Hctl)).
    dict_types. rewrite Hctl. now rewrite sub_diag. }
  split; [exact Hdd|].
  intros fc Hfc.
  rewrite (fold_change_loop_get pow2_frac _ Dict.empty fc
             (control_condition, g) (compute_ddct_wf _ _ _) Hfc).
  dict_types. now rewrite Hdd.
Qed.


(** C10. For the empty sequence of readings every stage returns an empty
    mapping, for every housekeeping gene and control condition (and every
    order of visiting the genes). *)
Theorem empty_input_pipeline (genes : list string) (hk control_condition : string) :
  group_ct_values [] = Dict.empty
  /\ compute_delta_ct (group_ct_values []) hk = Dict.empty
  /\ average_delta_ct (compute_delta_ct (group_ct_values []) hk) = Dict.empty
  /\ compute_ddct genes
       (average_delta_ct (compute_delta_ct (group_ct_values []) hk))
       control_condition = Dict.empty
  /\ compute_fold_change pow2_frac
       (compute_ddct genes
          (average_delta_ct (compute_delta_ct (group_ct_values []) hk))
          control_condition) = Some Dict.empty.
Proof.
  assert (Hdd : compute_ddct genes
                  (average_delta_ct (compute_delta_ct (group_ct_values []) hk))
                  control_condition = Dict.empty)
    by apply compute_ddct_empty.
  repeat split; try reflexivity; try exact Hdd.
  now rewrite Hdd.
Qed.

(** C1. The pipeline on the four readings of the scenario, with
    housekeeping gene GAPDH and control condition control: the mean
    delta-Ct of (control, Bax) is 5.0 and of (treated, Bax) 3.5, the
    delta-delta-Ct of (control, Bax) is 0.0 and of (treated, Bax) -1.5, and
    the fold change of (treated, Bax) is [2 ** 1.5]. *)
Theorem scenario_pipeline (genes : list string) (p : F64.float) :
  set_iteration (genes_of scenario_mean) genes ->
  py_pow2 pow2_frac f1_5 = Some p ->
  pipeline pow2_frac genes scenario "GAPDH" "control"
  = ( [ (("control", "Bax"), F64.of_Z 5); (("treated", "Bax"), f3_5) ],
      [ (("control", "Bax"), F64.zero); (("treated", "Bax"), fm1_5) ],
      Some [ (("control", "Bax"), F64.one); (("treated", "Bax"), p) ] ).
Proof.
  intros Hgenes Hp.
  assert (Hord : genes = ["Bax"]).
  { apply (set_iteration_single (genes_of scenario_mean)); auto.
    - vm_compute. now left.
    - vm_compute. intros y [<- | [<- | []]]; reflexivity. }
  subst genes. unfold pipeline; cbv zeta.
  replace (average_delta_ct (compute_delta_ct (group_ct_values scenario) "GAPDH"))
    with [ (("control", "Bax"), F64.of_Z 5); (("treated", "Bax"), f3_5) ]
    by (vm_compute; reflexivity).
  replace (compute_ddct ["Bax"] _ "control")
    with [ (("control", "Bax"), F64.zero); (("treated", "Bax"), fm1_5) ]
    by (vm_compute; reflexivity).
  unfold compute_fold_change. cbn [fold_change_loop].
  rewrite py_pow2_opp_zero.
  change (F64.opp fm1_5) with f1_5. rewrite Hp.
  reflexivity.
Qed.

End Claims.

(** * The claims on concrete inputs *)

Lemma scenario_genes : set_iteration (genes_of scenario_mean) ["Bax"].
Proof.
  split.
  - repeat constructor. simpl. tauto.
  - intros x. vm_compute. tauto.
Qed.

(** The scenario with [2 ** 1.5] evaluated to 2.8284271247461903. *)
Lemma scenario_pipeline_witness :
  pipeline example_pow2_frac ["Bax"] scenario "GAPDH" "control"
  = ( [ (("control", "Bax"), F64.of_Z 5); (("treated", "Bax"), f3_5) ],
      [ (("control", "Bax"), F64.zero); (("treated", "Bax"), fm1_5) ],
      Some [ (("control", "Bax"), F64.one); (("treated", "Bax"), sqrt8) ] ).
Proof.
  apply (scenario_pipeline example_pow2_frac ["Bax"] sqrt8).
  - exact scenario_genes.
  - reflexivity.
Defined.

(** Bax with its control mean deleted: no entry for (treated, Bax). *)
Lemma missing_control_witness :
  Dict.get mean_without_control ("control", "Bax") = None
  /\ Dict.get (compute_ddct ["Bax"] mean_without_control "control")
              ("treated", "Bax") = None
  /\ forall fc,
       compute_fold_change example_pow2_frac
         (compute_ddct ["Bax"] mean_without_control "control") = Some fc ->
       Dict.get fc ("treated", "Bax") = None.
Proof.
  split; [reflexivity|].
  exact (missing_control_excludes_gene example_pow2_frac ["Bax"]
           mean_without_control "control" "Bax" eq_refl "treated").
Defined.

(** The claim C3 fails: with no housekeeping reading the output is not
    empty, it holds the key of the target gene with an empty sequence. *)
Lemma no_housekeeping_output_not_empty :
  forallb (fun k => negb (String.eqb (snd k) "GAPDH"))
          (Dict.keys grouped_without_housekeeping) = true
  /\ compute_delta_ct grouped_without_housekeeping "GAPDH"
     = [(("control", "Bax"), [])]
  /\ Dict.keys (compute_delta_ct grouped_without_housekeeping "GAPDH")
     = [("control", "Bax")].
Proof. repeat split. Qed.

Lemma no_housekeeping_witness :
  Dict.get (compute_delta_ct grouped_without_housekeeping "GAPDH")
           ("control", "Bax") = Some []
  /\ average_delta_ct (compute_delta_ct grouped_without_housekeeping "GAPDH")
     = Dict.empty.
Proof.
  split; [reflexivity|].
  apply (compute_delta_ct_no_housekeeping grouped_without_housekeeping "GAPDH").
  intros k [<- | []]. discriminate.
Defined.

(** Sample s3 of Bax has no GAPDH reading: two delta-Ct values for three
    samples. *)
Lemma missing_s3_witness :
  Dict.get (compute_delta_ct grouped_missing_s3 "GAPDH") ("control", "Bax")
  = Some [F64.of_Z 5; F64.of_Z 5]
  /\ List.length
       (delta_values (housekeeping_index grouped_missing_s3 "GAPDH") "control"
          [("s1", F64.of_Z 25); ("s2", F64.of_Z 26); ("s3", F64.of_Z 27)])
     = 2%nat.
Proof.
  destruct (compute_delta_ct_samples grouped_missing_s3 "GAPDH" "control" "Bax"
              [("s1", F64.of_Z 25); ("s2", F64.of_Z 26); ("s3", F64.of_Z 27)])
    as [_ [Hget Hlen]].
  - apply grouped_wfb_sound. reflexivity.
  - discriminate.
  - reflexivity.
  - split.
    + rewrite Hget. reflexivity.
    + rewrite Hlen. reflexivity.
Defined.

(** Three values whose left-to-right sum is 0.6000000000000001 and whose
    compensated sum is 0.6; the empty sequence has no entry. *)
Lemma average_witness :
  Dict.get (average_delta_ct_on F64.CompensatedSum delta_triplicate)
           ("control", "Bax")
  = Some (F64.div f0_6 (F64.of_Z 3))
  /\ Dict.get (average_delta_ct_on F64.LeftToRightSum delta_triplicate)
              ("control", "Bax")
     = Some (F64.div (F64.dyadic 5404319552844596 (-53)) (F64.of_Z 3))
  /\ Dict.get (average_delta_ct_on F64.CompensatedSum delta_triplicate)
              ("treated", "Bax") = None.
Proof.
  assert (Hwf : Dict.wf delta_triplicate)
    by (apply distinctb_NoDup; reflexivity).
  split; [|split].
  - rewrite (proj1 (average_delta_ct_spec F64.CompensatedSum delta_triplicate
                      ("control", "Bax") Hwf)).
    reflexivity.
  - rewrite (proj1 (average_delta_ct_spec F64.LeftToRightSum delta_triplicate
                      ("control", "Bax") Hwf)).
    reflexivity.
  - rewrite (proj1 (average_delta_ct_spec F64.CompensatedSum delta_triplicate
                      ("treated", "Bax") Hwf)).
    reflexivity.
Defined.

(** The claim C7 fails: an infinite control mean gives NaN, not 0.0. *)
Lemma infinite_control_gives_nan :
  set_iteration (genes_of mean_infinite_control) ["Bax"]
  /\ Dict.get mean_infinite_control ("control", "Bax") = Some F64.infinity
  /\ Dict.get (compute_ddct ["Bax"] mean_infinite_control "control")
              ("control", "Bax") = Some F64.nan
  /\ F64.eqb F64.nan F64.zero = false.
Proof.
  split; [|repeat split].
  split.
  - repeat constructor. simpl. tauto.
  - intros x. simpl. tauto.
Qed.

Lemma control_self_comparison_witness :
  Dict.get (compute_ddct ["Bax"] scenario_mean "control") ("control", "Bax")
  = Some F64.zero
  /\ forall fc,
       compute_fold_change example_pow2_frac
         (compute_ddct ["Bax"] scenario_mean "control") = Some fc ->
       Dict.get fc ("control", "Bax") = Some F64.one.
Proof.
  apply (control_self_comparison example_pow2_frac ["Bax"] scenario_mean
           "control" "Bax" (F64.of_Z 5)).
  - exact scenario_genes.
  - reflexivity.
  - reflexivity.
Defined.



(** * Further properties *)

(** ** [compute_ddct] *)

Lemma wf_NoDup_items {K V : Type} `{EqKey K} (d : Dict.t K V) :
  Dict.wf d -> NoDup d.
Proof. unfold Dict.wf, Dict.keys. apply NoDup_map_inv. Qed.

Lemma same_lookups_Permutation {K V : Type} `{EqKey K} (d1 d2 : Dict.t K V) :
  Dict.wf d1 -> Dict.wf d2 ->
  (forall k, Dict.get d1 k = Dict.get d2 k) ->
  Permutation d1 d2.
Proof.
  intros Hwf1 Hwf2 Hget.
  apply NoDup_Permutation; auto using wf_NoDup_items.
  intros [k v]. split; intros Hin.
  - apply get_Some_In. rewrite <- Hget. now apply In_wf_get.
  - apply get_Some_In. rewrite Hget. now apply In_wf_get.
Qed.

Lemma not_in_genes_get (mean_delta_ct : MeanDeltaCt) (c g : string) :
  ~ In g (genes_of mean_delta_ct) -> Dict.get mean_delta_ct (c, g) = None.
Proof.
  intros Hn. destruct (Dict.get mean_delta_ct (c, g)) as [v|] eqn:E; auto.
  elim Hn. exact (in_genes_of _ _ _ _ E).
Qed.

(** The delta-delta-Ct of (c, g) is the mean of (c, g) minus the mean of
    (control, g) when both means exist, and absent otherwise, in whatever
    order the set of genes is visited. *)
Theorem compute_ddct_values (genes : list string) (mean_delta_ct : MeanDeltaCt)
    (control_condition c g : string) :
  set_iteration (genes_of mean_delta_ct) genes ->
  Dict.get (compute_ddct genes mean_delta_ct control_condition) (c, g)
  = match Dict.get mean_delta_ct (control_condition, g),
          Dict.get mean_delta_ct (c, g) with
    | Some control_dct, Some v => Some (F64.sub v control_dct)
    | _, _ => None
    end.
Proof.
  intros [_ Hgenes]. rewrite compute_ddct_get.
  destruct (existsb (String.eqb g) genes) eqn:E; auto.
  assert (Hn : ~ In g (genes_of mean_delta_ct)).
  { intros Hin. apply Hgenes in Hin. apply existsb_eqb_In in Hin. congruence. }
  rewrite (not_in_genes_get _ c g Hn).
  now destruct (Dict.get mean_delta_ct (control_condition, g)).
Qed.

(** Two orders of visiting the set of genes give the same entries: the
    outputs are permutations of each other. *)
Theorem compute_ddct_order_irrelevant (genes1 genes2 : list string)
    (mean_delta_ct : MeanDeltaCt) (control_condition : string) :
  set_iteration (genes_of mean_delta_ct) genes1 ->
  set_iteration (genes_of mean_delta_ct) genes2 ->
  Permutation (compute_ddct genes1 mean_delta_ct control_condition)
              (compute_ddct genes2 mean_delta_ct control_condition).
Proof.
  intros [_ H1] [_ H2].
  apply same_lookups_Permutation; auto using compute_ddct_wf.
  intros [c g]. rewrite !compute_ddct_get.
  assert (E : existsb (String.eqb g) genes1 = existsb (String.eqb g) genes2).
  { destruct (existsb (String.eqb g) genes2) eqn:E2.
    - apply existsb_eqb_In. apply H1, H2.
      apply existsb_exists in E2. destruct E2 as [x [Hx Ex]].
      apply String.eqb_eq in Ex. now subst.
    - destruct (existsb (String.eqb g) genes1) eqn:E1; auto.
      apply existsb_exists in E1. destruct E1 as [x [Hx Ex]].
      apply String.eqb_eq in Ex. subst x.
      apply H1, H2, existsb_eqb_In in Hx. congruence. }
  now rewrite E.
Qed.

Lemma ddct_fold_no_control (genes : list string) (mean_delta_ct : MeanDeltaCt)
    (control_condition : string) (ddct : DeltaDeltaCt) :
  (forall k, In k (Dict.keys mean_delta_ct) -> fst k <> control_condition) ->
  fold_left (ddct_gene mean_delta_ct control_condition) genes ddct = ddct.
Proof.
  intros Hno. revert ddct. induction genes as [|g genes IH]; intros ddct; auto.
  cbn [fold_left]. rewrite IH. unfold ddct_gene.
  assert (E : Dict.get mean_delta_ct (control_condition, g) = None).
  { apply get_None_keys. intros Hin. now apply (Hno _ Hin). }
  dict_types. now rewrite E.
Qed.

(** When no key of the means has the control condition (a control name
    that occurs nowhere in the data), [compute_ddct] returns the empty
    mapping, without an error, and so does [compute_fold_change], whatever
    the means are. *)
Theorem compute_ddct_no_control (pow2_frac : F64.float -> F64.float)
    (genes : list string) (mean_delta_ct : MeanDeltaCt)
    (control_condition : string) :
  (forall k, In k (Dict.keys mean_delta_ct) -> fst k <> control_condition) ->
  compute_ddct genes mean_delta_ct control_condition = Dict.empty
  /\ compute_fold_change pow2_frac
       (compute_ddct genes mean_delta_ct control_condition) = Some Dict.empty.
Proof.
  intros Hno. unfold compute_ddct.
  rewrite ddct_fold_no_control by assumption. now split.
Qed.

(** ** [compute_fold_change] *)

Section FoldChangeMore.

Variable pow2_frac : F64.float -> F64.float.

Lemma py_pow2_overflow (y : F64.float) (n : Z) :
  F64.integral_value y = Some n -> 1023 < n -> py_pow2 pow2_frac y = None.
Proof.
  intros Hint Hn. destruct y as [s | s | | s m e]; try discriminate.
  - injection Hint as <-. lia.
  - cbn [py_pow2]. unfold libm_pow2. rewrite Hint. unfold F64.pow2_Z.
    apply Z.ltb_lt in Hn. now rewrite Hn.
Qed.

(** One delta-delta-Ct v whose negation is a whole number above 1023 makes
    the whole call fail with [OverflowError]: no fold change is returned
    for any key. *)
Theorem compute_fold_change_overflow (ddct : DeltaDeltaCt) (k : GroupKey)
    (v : F64.float) (n : Z) :
  In (k, v) ddct ->
  F64.integral_value (F64.opp v) = Some n ->
  1023 < n ->
  compute_fold_change pow2_frac ddct = None.
Proof.
  intros Hin Hint Hn. apply fold_change_loop_None.
  exists k, v. split; auto. exact (py_pow2_overflow _ n Hint Hn).
Qed.

(** The fold change of a finite delta-delta-Ct v whose negation is a whole
    number n from -1074 to 1023 is the power of two [2^n] exactly, with the
    C library's power exact at whole exponents: the number [m * 2^e] with
    [m * 2^e = 2^n]. *)
Theorem fold_change_integer_exact (ddct : DeltaDeltaCt) (fc : FoldChange)
    (k : GroupKey) (v : F64.float) (n : Z) :
  Dict.wf ddct ->
  compute_fold_change pow2_frac ddct = Some fc ->
  Dict.get ddct k = Some v ->
  F64.is_finite v = true ->
  F64.integral_value (F64.opp v) = Some n ->
  -1074 <= n <= 1023 ->
  exists m e, Dict.get fc k = Some (S754_finite false m e)
              /\ e <= n /\ Zpos m = 2 ^ (n - e).
Proof.
  intros Hwf Hfc Hget Hv Hint Hn.
  pose proof (fold_change_loop_get pow2_frac ddct Dict.empty fc k Hwf Hfc) as Hk.
  dict_types. rewrite Hget in Hk.
  destruct (pow2_Z_exact n Hn) as [m [e [Hp He]]].
  exists m, e. split; auto.
  rewrite Hk, <- Hp.
  destruct (py_pow2 pow2_frac (F64.opp v)) as [p|] eqn:Ep.
  - rewrite <- is_finite_opp in Hv.
    now rewrite (py_pow2_integral pow2_frac _ p n Hv Hint Ep).
  - exfalso. apply get_Some_In in Hget.
    assert (Hnone : compute_fold_change pow2_frac ddct = None).
    { apply fold_change_loop_None. eauto. }
    congruence.
Qed.

Lemma py_pow2_nonfinite (v : F64.float) :
  F64.is_finite v = false ->
  py_pow2 pow2_frac (F64.opp v)
  = Some match v with
         | S754_infinity false => F64.zero
         | S754_infinity true => F64.infinity
         | _ => F64.nan
         end.
Proof.
  destruct v as [s | s | | s m e]; try discriminate; auto.
  now destruct s.
Qed.

(** A delta-delta-Ct that is not finite raises no error:
    [compute_fold_change] can fail at a finite value only, so it returns a
    mapping for every input that has no finite value; and in the mapping
    it returns, the fold change of [+inf] is 0.0, of [-inf] is [+inf] and
    of NaN is NaN. *)
Theorem fold_change_nonfinite (ddct : DeltaDeltaCt) :
  Dict.wf ddct ->
  (compute_fold_change pow2_frac ddct = None ->
   exists k v, In (k, v) ddct /\ F64.is_finite v = true
               /\ py_pow2 pow2_frac (F64.opp v) = None)
  /\ ((forall k v, In (k, v) ddct -> F64.is_finite v = false) ->
      exists fc, compute_fold_change pow2_frac ddct = Some fc)
  /\ forall fc k v,
       compute_fold_change pow2_frac ddct = Some fc ->
       Dict.get ddct k = Some v ->
       F64.is_finite v = false ->
       Dict.get fc k
       = Some match v with
              | S754_infinity false => F64.zero
              | S754_infinity true => F64.infinity
              | _ => F64.nan
              end.
Proof.
  intros Hwf.
  assert (Hfail : compute_fold_change pow2_frac ddct = None ->
                  exists k v, In (k, v) ddct /\ F64.is_finite v = true
                              /\ py_pow2 pow2_frac (F64.opp v) = None).
  { intros Hnone. apply fold_change_loop_None in Hnone.
    destruct Hnone as [k [v [Hin Hp]]]. exists k, v. repeat split; auto.
    destruct (F64.is_finite v) eqn:Hv; auto.
    rewrite (py_pow2_nonfinite v Hv) in Hp. discriminate. }
  split; [exact Hfail|]. split.
  - intros Hall.
    destruct (compute_fold_change pow2_frac ddct) as [fc|] eqn:E; [eauto|].
    destruct (Hfail eq_refl) as [k [v [Hin [Hv _]]]].
    rewrite (Hall k v Hin) in Hv. discriminate.
  - intros fc k v Hfc Hget Hv.
    rewrite (fold_change_loop_get pow2_frac ddct Dict.empty fc k Hwf Hfc).
    dict_types. rewrite Hget. now apply py_pow2_nonfinite.
Qed.

End FoldChangeMore.

(** ** [average_delta_ct] *)

Lemma sum_from_nan (values : list F64.float) :
  fold_left F64.add values F64.nan = F64.nan.
Proof. induction values as [|x values IH]; auto. Qed.

Lemma sum_with_nan (values : list F64.float) (acc : F64.float) :
  In F64.nan values -> fold_left F64.add values acc = F64.nan.
Proof.
  revert acc. induction values as [|x values IH]; intros acc; [intros []|].
  intros [-> | Hin]; cbn [fold_left].
  - replace (F64.add acc F64.nan) with F64.nan by now destruct acc.
    apply sum_from_nan.
  - now apply IH.
Qed.

(** A NaN among the delta-Ct values of a key makes the mean of the key
    NaN; the key is kept. *)
Theorem average_delta_ct_nan (d : DeltaCtSet) (k : GroupKey)
    (values : list F64.float) :
  Dict.wf d ->
  Dict.get d k = Some values ->
  In F64.nan values ->
  Dict.get (average_delta_ct d) k = Some F64.nan.
Proof.
  intros Hwf Hget Hin. unfold average_delta_ct.
  rewrite average_fold_get by assumption. dict_types. rewrite Hget.
  destruct values as [|x values]; [destruct Hin|].
  unfold F64.sum. now rewrite sum_with_nan.
Qed.

Lemma average_fold_keys (d : DeltaCtSet) (acc : MeanDeltaCt) :
  NoDup (Dict.keys acc ++ Dict.keys d) ->
  Dict.keys (fold_left average_group d acc)
  = Dict.keys acc
    ++ Dict.keys (filter (fun item => negb (Nat.eqb (List.length (snd item)) 0)) d).
Proof.
  revert acc. induction d as [|[k0 l0] rest IH]; intros acc Hnd.
  - simpl. now rewrite app_nil_r.
  - cbn [fold_left filter snd]. unfold average_group at 2.
    assert (Hfresh : ~ In k0 (Dict.keys acc)).
    { apply NoDup_remove_2 in Hnd. intros Hin. apply Hnd.
      apply in_or_app. now left. }
    destruct (Nat.eqb (List.length l0) 0); cbn [negb].
    + apply IH. now apply NoDup_remove_1 in Hnd.
    + rewrite IH.
      * rewrite set_fresh by exact Hfresh. unfold Dict.keys.
        rewrite map_app. simpl. now rewrite <- app_assoc.
      * rewrite set_fresh by exact Hfresh. unfold Dict.keys in *.
        rewrite map_app. simpl. now rewrite <- app_assoc.
Qed.

(** The keys of the means are the keys of the input whose sequence is not
    empty, in the order of the input: no key is added or moved. *)
Theorem average_delta_ct_keys (d : DeltaCtSet) :
  Dict.wf d ->
  Dict.keys (average_delta_ct d)
  = Dict.keys (filter (fun item => negb (Nat.eqb (List.length (snd item)) 0)) d).
Proof.
  intros Hwf. unfold average_delta_ct. now rewrite average_fold_keys.
Qed.

(** ** [group_ct_values] *)

Lemma total_samples_set_new (grouped : Grouped) (k : GroupKey) (v : SampleMap) :
  Dict.get grouped k = None ->
  total_samples (Dict.set grouped k v)
  = (total_samples grouped + List.length v)%nat.
Proof.
  unfold total_samples, list_sum.
  induction grouped as [|[k0 v0] rest IH];
    cbn [Dict.get Dict.set map fold_right snd]; intros Hget; [lia|].
  destruct (keqb k k0); [discriminate|].
  cbn [map fold_right snd]. rewrite IH by assumption. lia.
Qed.

Lemma total_samples_set_old (grouped : Grouped) (k : GroupKey)
    (old v : SampleMap) :
  Dict.get grouped k = Some old ->
  (total_samples (Dict.set grouped k v) + List.length old
   = total_samples grouped + List.length v)%nat.
Proof.
  unfold total_samples, list_sum.
  induction grouped as [|[k0 v0] rest IH];
    cbn [Dict.get Dict.set map fold_right snd]; intros Hget; [discriminate|].
  destruct (keqb k k0); cbn [map fold_right snd].
  - injection Hget as ->. lia.
  - specialize (IH Hget). lia.
Qed.

Lemma length_set_sample (samples : SampleMap) (s : string) (x : F64.float) :
  List.length (Dict.set samples s x)
  = if Dict.mem samples s then List.length samples
    else S (List.length samples).
Proof.
  unfold Dict.mem.
  induction samples as [|[s0 x0] rest IH];
    cbn [Dict.get Dict.set List.length]; auto.
  destruct (keqb s s0); cbn [List.length]; auto.
  rewrite IH. now destruct (Dict.get rest s).
Qed.

Lemma total_samples_group_row (grouped : Grouped) (row : Reading) :
  total_samples (group_row grouped row)
  = (total_samples grouped + if has_sample grouped row then 0 else 1)%nat.
Proof.
  unfold group_row, has_sample, Dict.mem at 1, Dict.update; cbv zeta.
  set (key := (condition row, gene row)).
  destruct (Dict.get grouped key) as [samples|] eqn:E.
  - rewrite E.
    pose proof (total_samples_set_old grouped key samples
                  (Dict.set samples (sample_id row) (ct row)) E) as H.
    rewrite length_set_sample in H.
    destruct (Dict.mem samples (sample_id row)); lia.
  - rewrite get_set_eq.
    pose proof (total_samples_set_new grouped key Dict.empty E) as Hnew.
    pose proof (total_samples_set_old (Dict.set grouped key Dict.empty) key
                  Dict.empty (Dict.set Dict.empty (sample_id row) (ct row))
                  (get_set_eq grouped key Dict.empty)) as H.
    simpl in *. lia.
Qed.

Lemma reading_matches_triple (c g s : string) (row : Reading) :
  reading_matches c g s row = true <-> reading_triple row = (c, g, s).
Proof.
  unfold reading_matches, reading_triple.
  rewrite !andb_true_iff, !String.eqb_eq. split.
  - intros [[-> ->] ->]. reflexivity.
  - intros [= -> -> ->]. auto.
Qed.

Lemma last_reading_Some (data : list Reading) (c g s : string) (row : Reading) :
  last_reading data c g s = Some row ->
  In row data /\ reading_triple row = (c, g, s).
Proof.
  unfold last_reading. intros Hfind. apply find_some in Hfind.
  destruct Hfind as [Hin Hm]. split.
  - now apply in_rev.
  - now apply reading_matches_triple.
Qed.

Lemma last_reading_None (data : list Reading) (c g s : string) :
  last_reading data c g s = None <-> ~ In (c, g, s) (map reading_triple data).
Proof.
  unfold last_reading. split.
  - intros Hfind Hin. apply in_map_iff in Hin. destruct Hin as [row [Ht Hin]].
    apply in_rev in Hin.
    pose proof (find_none _ _ Hfind row Hin) as Hm.
    apply reading_matches_triple in Ht. congruence.
  - intros Hn. destruct (find _ (rev data)) as [row|] eqn:E; auto.
    apply find_some in E. destruct E as [Hin Hm]. elim Hn.
    apply in_map_iff. exists row. split.
    + now apply reading_matches_triple.
    + now apply in_rev.
Qed.

Lemma has_sample_last_reading (data : list Reading) (row : Reading) :
  has_sample (group_ct_values data) row = true
  <-> In (reading_triple row) (map reading_triple data).
Proof.
  pose proof (group_ct_values_lookup data (condition row) (gene row)
                (sample_id row)) as Hl.
  pose proof (last_reading_None data (condition row) (gene row)
                (sample_id row)) as Hn.
  unfold has_sample, Dict.mem. dict_types.
  destruct (Dict.get _ (condition row, gene row)) as [samples|].
  - destruct (Dict.get samples (sample_id row)) as [x|].
    + split; auto. intros _.
      destruct (last_reading data _ _ _) as [r|] eqn:E; [|discriminate].
      apply last_reading_Some in E. destruct E as [Hin Ht].
      apply in_map_iff. exists r. auto.
    + split; [discriminate|]. intros Hin.
      destruct (last_reading data _ _ _) as [r|] eqn:E; [discriminate|].
      elim (proj1 Hn eq_refl). exact Hin.
  - split; [discriminate|]. intros Hin.
    destruct (last_reading data _ _ _) as [r|] eqn:E; [discriminate|].
    elim (proj1 Hn eq_refl). exact Hin.
Qed.

(** The grouped output never holds more Ct values than there are readings,
    and holds exactly as many when no two readings share condition, gene
    and sample: then no reading is lost. *)
Theorem group_ct_values_count (data : list Reading) :
  (total_samples (group_ct_values data) <= List.length data)%nat
  /\ (NoDup (map reading_triple data) ->
      total_samples (group_ct_values data) = List.length data).
Proof.
  induction data as [|row data [IHle IHeq]] using rev_ind.
  - split; reflexivity.
  - rewrite group_ct_values_snoc, total_samples_group_row, length_app.
    simpl. split.
    + destruct (has_sample _ row); lia.
    + intros Hnd. rewrite map_app in Hnd. simpl in Hnd.
      apply NoDup_remove in Hnd. rewrite app_nil_r in Hnd.
      destruct Hnd as [Hnd Hfresh]. rewrite IHeq by assumption.
      destruct (has_sample _ row) eqn:E; [|lia].
      apply has_sample_last_reading in E. contradiction.
Qed.

Lemma NoDup_map_injective {A B : Type} (f : A -> B) (l : list A) (x y : A) :
  NoDup (map f l) -> In x l -> In y l -> f x = f y -> x = y.
Proof.
  induction l as [|a l IH]; simpl; [tauto|].
  intros Hnd Hx Hy Hf. inversion Hnd as [|? ? Hfresh Hnd']; subst.
  destruct Hx as [-> | Hx], Hy as [-> | Hy]; auto.
  - elim Hfresh. rewrite Hf. now apply in_map.
  - elim Hfresh. rewrite <- Hf. now apply in_map.
Qed.

Lemma last_reading_permutation (data data' : list Reading) (c g s : string) :
  NoDup (map reading_triple data) ->
  Permutation data data' ->
  last_reading data c g s = last_reading data' c g s.
Proof.
  intros Hnd Hperm.
  assert (Hnd' : NoDup (map reading_triple data'))
    by (eapply Permutation_NoDup; [apply Permutation_map, Hperm | exact Hnd]).
  destruct (last_reading data c g s) as [r|] eqn:E,
           (last_reading data' c g s) as [r'|] eqn:E'; auto.
  - apply last_reading_Some in E, E'.
    destruct E as [Hin Ht], E' as [Hin' Ht'].
    f_equal. apply (NoDup_map_injective reading_triple data'); auto.
    + eapply Permutation_in; eauto.
    + congruence.
  - apply last_reading_Some in E. destruct E as [Hin Ht].
    apply last_reading_None in E'. elim E'.
    rewrite <- Ht. apply in_map. eapply Permutation_in; eauto.
  - apply last_reading_Some in E'. destruct E' as [Hin' Ht'].
    apply last_reading_None in E. elim E.
    rewrite <- Ht'. apply in_map.
    eapply Permutation_in; [apply Permutation_sym|]; eauto.
Qed.

(** When no two readings share condition, gene and sample, the order of
    the readings does not matter: a reordered input gives the same keys and
    the same Ct for every condition, gene and sample. *)
Theorem group_ct_values_permutation (data data' : list Reading) :
  NoDup (map reading_triple data) ->
  Permutation data data' ->
  (forall k, In k (Dict.keys (group_ct_values data))
             <-> In k (Dict.keys (group_ct_values data')))
  /\ forall c g s,
       match Dict.get (group_ct_values data) (c, g) with
       | Some samples => Dict.get samples s
       | None => None
       end
       = match Dict.get (group_ct_values data') (c, g) with
         | Some samples => Dict.get samples s
         | None => None
         end.
Proof.
  intros Hnd Hperm. split.
  - intros k. rewrite !group_ct_values_keys.
    split; intros [row [Hin Hk]]; exists row; split; auto.
    + eapply Permutation_in; eauto.
    + eapply Permutation_in; [apply Permutation_sym|]; eauto.
  - intros c g s. rewrite !group_ct_values_lookup.
    now rewrite (last_reading_permutation data data' c g s Hnd Hperm).
Qed.

(** ** [compute_delta_ct] and the means *)

Lemma compute_delta_ct_get (grouped : Grouped) (hk c g : string)
    (samples : SampleMap) :
  Dict.wf grouped ->
  g <> hk ->
  Dict.get grouped (c, g) = Some samples ->
  Dict.get (compute_delta_ct grouped hk) (c, g)
  = Some (delta_values (housekeeping_index grouped hk) c samples).
Proof.
  intros Hwf Hg Hget. unfold compute_delta_ct; cbv zeta.
  rewrite delta_fold_get by assumption. dict_types. rewrite Hget.
  apply String.eqb_neq in Hg. now rewrite Hg.
Qed.

Lemma compute_delta_ct_wf (grouped : Grouped) (hk : string) :
  Dict.wf (compute_delta_ct grouped hk).
Proof. unfold compute_delta_ct; cbv zeta. apply delta_fold_wf, wf_empty. Qed.

Lemma delta_values_nil (housekeeping : HousekeepingIndex) (c : string)
    (samples : SampleMap) :
  (forall s, Dict.get housekeeping (c, s) = None) ->
  delta_values housekeeping c samples = [].
Proof.
  intros Hno. unfold delta_values.
  induction samples as [|[s0 x0] rest IH]; auto.
  cbn [flat_map]. unfold delta_of_sample at 1. cbn [fst]. now rewrite Hno.
Qed.

Lemma delta_values_nonempty (housekeeping : HousekeepingIndex) (c : string)
    (samples : SampleMap) :
  delta_values housekeeping c samples <> []
  <-> exists s x, In (s, x) samples /\ Dict.get housekeeping (c, s) <> None.
Proof.
  unfold delta_values. induction samples as [|[s0 x0] rest IH].
  - simpl. split; [congruence|]. intros [s [x [[] _]]].
  - cbn [flat_map]. unfold delta_of_sample at 1. cbn [fst snd].
    destruct (Dict.get housekeeping (c, s0)) as [h|] eqn:E.
    + split; [|discriminate]. intros _. exists s0, x0. split; [now left|].
      congruence.
    + cbn [app]. rewrite IH. split.
      * intros [s [x [Hin Hs]]]. exists s, x. split; auto. now right.
      * intros [s [x [[Heq | Hin] Hs]]]; [|eauto].
        injection Heq as <- <-. congruence.
Qed.

Lemma delta_values_complete (housekeeping : HousekeepingIndex) (c : string)
    (samples : SampleMap) :
  (forall s x, In (s, x) samples -> Dict.get housekeeping (c, s) <> None) ->
  Forall2 (fun item d =>
             exists h, Dict.get housekeeping (c, fst item) = Some h
                       /\ d = F64.sub (snd item) h)
          samples (delta_values housekeeping c samples).
Proof.
  unfold delta_values. induction samples as [|[s0 x0] rest IH]; intros Hall.
  - constructor.
  - cbn [flat_map]. unfold delta_of_sample at 1. cbn [fst snd].
    destruct (Dict.get housekeeping (c, s0)) as [h|] eqn:E.
    + cbn [app]. constructor.
      * exists h. cbn [fst snd]. auto.
      * apply IH. intros s x Hin. apply (Hall s x). now right.
    + elim (Hall s0 x0); auto. now left.
Qed.

(** Housekeeping readings of another condition are never used: a key
    whose condition has no housekeeping reading gets an empty delta-Ct
    sequence and no mean. *)
Theorem delta_ct_needs_same_condition (grouped : Grouped) (hk c g : string)
    (samples : SampleMap) :
  grouped_wf grouped ->
  g <> hk ->
  Dict.get grouped (c, g) = Some samples ->
  Dict.get grouped (c, hk) = None ->
  Dict.get (compute_delta_ct grouped hk) (c, g) = Some []
  /\ Dict.get (average_delta_ct (compute_delta_ct grouped hk)) (c, g) = None.
Proof.
  intros Hwf Hg Hget Hhk.
  assert (Hd : Dict.get (compute_delta_ct grouped hk) (c, g) = Some []).
  { rewrite (compute_delta_ct_get grouped hk c g samples (proj1 Hwf) Hg Hget).
    rewrite delta_values_nil; auto.
    intros s. rewrite housekeeping_index_get by assumption.
    unfold housekeeping_ct. dict_types. now rewrite Hhk. }
  split; auto.
  unfold average_delta_ct.
  rewrite average_fold_get by apply compute_delta_ct_wf.
  dict_types. now rewrite Hd.
Qed.

(** When every sample of a key has a housekeeping reading under the same
    condition, no sample is dropped: the delta-Ct sequence has one value
    per sample, in the order of the samples, each the Ct minus the
    housekeeping Ct of that sample. *)
Theorem delta_ct_complete (grouped : Grouped) (hk c g : string)
    (samples hk_samples : SampleMap) :
  grouped_wf grouped ->
  g <> hk ->
  Dict.get grouped (c, g) = Some samples ->
  Dict.get grouped (c, hk) = Some hk_samples ->
  (forall s, In s (Dict.keys samples) -> In s (Dict.keys hk_samples)) ->
  exists l,
    Dict.get (compute_delta_ct grouped hk) (c, g) = Some l
    /\ List.length l = List.length samples
    /\ Forall2 (fun item d =>
                  exists h, Dict.get hk_samples (fst item) = Some h
                            /\ d = F64.sub (snd item) h)
               samples l.
Proof.
  intros Hwf Hg Hget Hhk Hall.
  assert (Hidx : forall s, Dict.get (housekeeping_index grouped hk) (c, s)
                           = Dict.get hk_samples s).
  { intros s. rewrite housekeeping_index_get by assumption.
    unfold housekeeping_ct. dict_types. now rewrite Hhk. }
  assert (HF : Forall2 (fun item d =>
                          exists h, Dict.get hk_samples (fst item) = Some h
                                    /\ d = F64.sub (snd item) h)
                       samples
                       (delta_values (housekeeping_index grouped hk) c samples)).
  { eapply Forall2_impl; [|apply delta_values_complete].
    - intros item d [h [Hh Hd]]. exists h. now rewrite <- Hidx.
    - intros s x Hin. rewrite Hidx.
      assert (Hk : In s (Dict.keys hk_samples)).
      { apply Hall. apply (in_map fst) in Hin. exact Hin. }
      apply in_keys_get in Hk. destruct Hk as [h Hh]. congruence. }
  exists (delta_values (housekeeping_index grouped hk) c samples).
  split; [|split]; auto.
  - exact (compute_delta_ct_get grouped hk c g samples (proj1 Hwf) Hg Hget).
  - symmetry. exact (Forall2_length HF).
Qed.

(** A key of a gene other than the housekeeping gene has a mean exactly
    when at least one of its samples has a housekeeping reading under the
    same condition. *)
Theorem mean_entry_iff_matched (grouped : Grouped) (hk c g : string)
    (samples : SampleMap) :
  grouped_wf grouped ->
  g <> hk ->
  Dict.get grouped (c, g) = Some samples ->
  In (c, g) (Dict.keys (average_delta_ct (compute_delta_ct grouped hk)))
  <-> exists s x, In (s, x) samples /\ housekeeping_ct grouped hk c s <> None.
Proof.
  intros Hwf Hg Hget.
  assert (Hiff : (exists s x, In (s, x) samples
                              /\ housekeeping_ct grouped hk c s <> None)
                 <-> delta_values (housekeeping_index grouped hk) c samples <> []).
  { rewrite delta_values_nonempty.
    split; intros [s [x [Hin Hs]]]; exists s, x; split; auto.
    - now rewrite housekeeping_index_get.
    - now rewrite <- (housekeeping_index_get grouped hk c s Hwf). }
  rewrite Hiff, in_keys_get. unfold average_delta_ct.
  rewrite average_fold_get by apply compute_delta_ct_wf.
  pose proof (compute_delta_ct_get grouped hk c g samples (proj1 Hwf) Hg Hget)
    as Hd.
  dict_types. rewrite Hd.
  destruct (delta_values (housekeeping_index grouped hk) c samples).
  - split; [intros [v Hv]; discriminate | congruence].
  - split; [discriminate | eauto].
Qed.

(** ** The order of the rows *)

Lemma ascii_compare_lt_trans (a b c : Ascii.ascii) :
  Ascii.compare a b = Lt -> Ascii.compare b c = Lt -> Ascii.compare a c = Lt.
Proof.
  unfold Ascii.compare. rewrite !N.compare_lt_iff. apply N.lt_trans.
Qed.

Lemma ascii_compare_refl (a : Ascii.ascii) : Ascii.compare a a = Eq.
Proof. unfold Ascii.compare. apply N.compare_refl. Qed.

Lemma string_compare_refl (s : string) : String.compare s s = Eq.
Proof.
  induction s as [|a s IH]; simpl; auto. now rewrite ascii_compare_refl.
Qed.

Lemma string_compare_lt_trans (s1 s2 s3 : string) :
  String.compare s1 s2 = Lt -> String.compare s2 s3 = Lt ->
  String.compare s1 s3 = Lt.
Proof.
  revert s2 s3. induction s1 as [|a s1 IH]; intros [|b s2] [|c s3]; simpl;
    try discriminate; auto.
  destruct (Ascii.compare a b) eqn:Eab; try discriminate;
    destruct (Ascii.compare b c) eqn:Ebc; try discriminate; intros H12 H23.
  - apply Ascii.compare_eq_iff in Eab, Ebc. subst.
    rewrite ascii_compare_refl. eauto.
  - apply Ascii.compare_eq_iff in Eab. subst. now rewrite Ebc.
  - apply Ascii.compare_eq_iff in Ebc. subst. now rewrite Eab.
  - now rewrite (ascii_compare_lt_trans a b c).
Qed.

Lemma string_leb_trans (s1 s2 s3 : string) :
  String.leb s1 s2 = true -> String.leb s2 s3 = true -> String.leb s1 s3 = true.
Proof.
  unfold String.leb.
  destruct (String.compare s1 s2) eqn:E12; try discriminate;
    destruct (String.compare s2 s3) eqn:E23; try discriminate; intros _ _.
  - apply String.compare_eq_iff in E12, E23. subst.
    now rewrite string_compare_refl.
  - apply String.compare_eq_iff in E12. subst. now rewrite E23.
  - apply String.compare_eq_iff in E23. subst. now rewrite E12.
  - now rewrite (string_compare_lt_trans s1 s2 s3).
Qed.

Lemma key_le_trans (a b c : GroupKey) : key_le a b -> key_le b c -> key_le a c.
Proof.
  destruct a as [a1 a2], b as [b1 b2], c as [c1 c2].
  unfold key_le, key_leb. cbn [fst snd].
  destruct (String.compare a1 b1) eqn:E12; try discriminate;
    destruct (String.compare b1 c1) eqn:E23; try discriminate; intros H12 H23.
  - apply String.compare_eq_iff in E12, E23. subst.
    rewrite string_compare_refl. now apply (string_leb_trans a2 b2 c2).
  - apply String.compare_eq_iff in E12. subst. now rewrite E23.
  - apply String.compare_eq_iff in E23. subst. now rewrite E12.
  - now rewrite (string_compare_lt_trans a1 b1 c1).
Qed.

Lemma key_leb_total (a b : GroupKey) : key_leb a b = false -> key_leb b a = true.
Proof.
  destruct a as [a1 a2], b as [b1 b2]. unfold key_leb. cbn [fst snd].
  rewrite (String.compare_antisym b1 a1).
  destruct (String.compare a1 b1) eqn:E; simpl; try discriminate; auto.
  intros Hle. destruct (String.leb_total a2 b2) as [H | H]; congruence.
Qed.

Lemma insert_key_perm (k : GroupKey) (l : list GroupKey) :
  Permutation (insert_key k l) (k :: l).
Proof.
  induction l as [|k' l IH]; simpl; auto.
  destruct (key_leb k k'); auto.
  rewrite IH. apply perm_swap.
Qed.

Lemma sorted_keys_perm (l : list GroupKey) : Permutation (sorted_keys l) l.
Proof.
  induction l as [|k l IH]; simpl; auto.
  rewrite insert_key_perm. now constructor.
Qed.

Lemma insert_key_HdRel (a k : GroupKey) (l : list GroupKey) :
  HdRel key_le a l -> key_le a k -> HdRel key_le a (insert_key k l).
Proof.
  intros Hl Hk. destruct l as [|k' l]; simpl.
  - now constructor.
  - destruct (key_leb k k'); constructor; auto. now inversion Hl.
Qed.

Lemma insert_key_sorted (k : GroupKey) (l : list GroupKey) :
  Sorted key_le l -> Sorted key_le (insert_key k l).
Proof.
  induction l as [|k' l IH]; intros Hs; simpl.
  - repeat constructor.
  - inversion Hs as [|? ? Hs' Hhd]; subst.
    destruct (key_leb k k') eqn:E.
    + constructor; auto.
    + constructor; auto.
      apply insert_key_HdRel; auto. now apply key_leb_total.
Qed.

Lemma sorted_keys_sorted (l : list GroupKey) :
  StronglySorted key_le (sorted_keys l).
Proof.
  apply Sorted_StronglySorted.
  - intros a b c. apply key_le_trans.
  - induction l as [|k l IH]; simpl; [constructor|].
    now apply insert_key_sorted.
Qed.

Section WriterFacts.

Variable round4 : F64.float -> F64.float.

Lemma row_key_result_row (mean_delta_ct : MeanDeltaCt) (ddct : DeltaDeltaCt)
    (fold_change : FoldChange) (key : GroupKey) :
  row_key (result_row round4 mean_delta_ct ddct fold_change key) = key.
Proof. now destruct key. Qed.

Lemma result_rows_keys (mean_delta_ct : MeanDeltaCt) (ddct : DeltaDeltaCt)
    (fold_change : FoldChange) :
  map row_key (result_rows round4 mean_delta_ct ddct fold_change)
  = sorted_keys (Dict.keys mean_delta_ct).
Proof.
  unfold result_rows. rewrite map_map.
  erewrite map_ext; [apply map_id|]. intros key. apply row_key_result_row.
Qed.

(** [write_results_to_csv] writes one row for each key of the means and no
    other row, in ascending order of (condition, gene), whatever the
    delta-delta-Ct and fold-change mappings hold. *)
Theorem result_rows_sorted (mean_delta_ct : MeanDeltaCt) (ddct : DeltaDeltaCt)
    (fold_change : FoldChange) :
  Permutation (map row_key (result_rows round4 mean_delta_ct ddct fold_change))
              (Dict.keys mean_delta_ct)
  /\ StronglySorted key_le
       (map row_key (result_rows round4 mean_delta_ct ddct fold_change)).
Proof.
  rewrite result_rows_keys. split.
  - apply sorted_keys_perm.
  - apply sorted_keys_sorted.
Qed.

End WriterFacts.

(** ** The stages together *)

Section PipelineFacts.

Variable pow2_frac : F64.float -> F64.float.
Variable round4 : F64.float -> F64.float.

Lemma average_in_keys (d : DeltaCtSet) (k : GroupKey) :
  Dict.wf d ->
  In k (Dict.keys (average_delta_ct d)) -> In k (Dict.keys d).
Proof.
  intros Hwf Hin. apply in_keys_get in Hin. destruct Hin as [v Hv].
  unfold average_delta_ct in Hv. rewrite average_fold_get in Hv by assumption.
  apply in_keys_get. dict_types.
  destruct (Dict.get d k) as [l|]; [eauto | discriminate].
Qed.

Lemma compute_ddct_in_keys (genes : list string) (mean_delta_ct : MeanDeltaCt)
    (control_condition : string) (k : GroupKey) :
  In k (Dict.keys (compute_ddct genes mean_delta_ct control_condition)) ->
  In k (Dict.keys mean_delta_ct).
Proof.
  destruct k as [c g]. intros Hin. apply in_keys_get in Hin.
  destruct Hin as [v Hv]. rewrite compute_ddct_get in Hv.
  apply in_keys_get. dict_types.
  destruct (existsb _ genes); [|discriminate].
  destruct (Dict.get mean_delta_ct (control_condition, g)); [|discriminate].
  destruct (Dict.get mean_delta_ct (c, g)) as [m|]; [eauto | discriminate].
Qed.

(** Through the stages no key is invented: a key of the fold changes is a
    key of the delta-delta-Cts, which is a key of the means, which is the
    (condition, gene) of some reading and never of the housekeeping gene;
    the fold changes have the keys of the delta-delta-Cts, in the same
    order. *)
Theorem pipeline_keys (genes : list string) (data : list Reading)
    (hk control_condition : string) :
  let mean_delta_ct :=
    average_delta_ct (compute_delta_ct (group_ct_values data) hk) in
  let ddct := compute_ddct genes mean_delta_ct control_condition in
  (forall k, In k (Dict.keys mean_delta_ct) ->
             snd k <> hk
             /\ exists row, In row data /\ (condition row, gene row) = k)
  /\ (forall k, In k (Dict.keys ddct) -> In k (Dict.keys mean_delta_ct))
  /\ (forall fc, compute_fold_change pow2_frac ddct = Some fc ->
                 Dict.keys fc = Dict.keys ddct).
Proof.
  cbv zeta. split; [|split].
  - intros k Hin. apply average_in_keys in Hin; [|apply compute_delta_ct_wf].
    apply compute_delta_ct_in_keys in Hin. destruct Hin as [Hin Hk].
    split; auto. now apply group_ct_values_keys.
  - intros k. apply compute_ddct_in_keys.
  - intros fc Hfc.
    apply (fold_change_loop_keys pow2_frac _ Dict.empty fc); auto.
    apply compute_ddct_wf.
Qed.

(** A housekeeping gene that no reading has: every stage returns an empty
    mapping and [main] writes no row, without an error. *)
Theorem pipeline_no_housekeeping (genes : list string) (data : list Reading)
    (hk control_condition : string) :
  (forall row, In row data -> gene row <> hk) ->
  pipeline pow2_frac genes data hk control_condition
  = (Dict.empty, Dict.empty, Some Dict.empty)
  /\ main_rows round4 pow2_frac genes data hk control_condition = Some [].
Proof.
  intros Hno.
  assert (Hmean : average_delta_ct (compute_delta_ct (group_ct_values data) hk)
                  = Dict.empty).
  { unfold average_delta_ct. apply average_all_empty.
    unfold compute_delta_ct, housekeeping_index; cbv zeta.
    rewrite housekeeping_fold_none.
    - apply delta_fold_all_empty. constructor.
    - intros k Hin. apply group_ct_values_keys in Hin.
      destruct Hin as [row [Hin <-]]. now apply Hno. }
  assert (Hp : pipeline pow2_frac genes data hk control_condition
               = (Dict.empty, Dict.empty, Some Dict.empty)).
  { unfold pipeline; cbv zeta. rewrite Hmean, compute_ddct_empty. reflexivity. }
  split; auto. unfold main_rows. now rewrite Hp.
Qed.

(** The row of a key (c, g) that has a mean v: it is written, with
    [round(v, 4)]; when the gene has no control mean its delta-delta-Ct and
    fold-change fields are empty; otherwise they hold the rounded
    [v - control mean] and the rounded [2 ** -(v - control mean)]. *)
Theorem result_row_fields (genes : list string) (mean_delta_ct : MeanDeltaCt)
    (control_condition c g : string) (v : F64.float) (fc : FoldChange) :
  set_iteration (genes_of mean_delta_ct) genes ->
  compute_fold_change pow2_frac
    (compute_ddct genes mean_delta_ct control_condition) = Some fc ->
  Dict.get mean_delta_ct (c, g) = Some v ->
  let ddct := compute_ddct genes mean_delta_ct control_condition in
  let row := result_row round4 mean_delta_ct ddct fc (c, g) in
  In row (result_rows round4 mean_delta_ct ddct fc)
  /\ row_condition row = c /\ row_gene row = g
  /\ row_mean_delta_ct row = round4 v
  /\ match Dict.get mean_delta_ct (control_condition, g) with
     | None => row_ddct row = None /\ row_fold_change row = None
     | Some control_dct =>
         row_ddct row = Some (round4 (F64.sub v control_dct))
         /\ exists p,
              py_pow2 pow2_frac (F64.opp (F64.sub v control_dct)) = Some p
              /\ row_fold_change row = Some (round4 p)
     end.
Proof.
  intros [_ Hgenes] Hfc Hget. cbv zeta.
  assert (Hdd : Dict.get (compute_ddct genes mean_delta_ct control_condition)
                         (c, g)
                = match Dict.get mean_delta_ct (control_condition, g) with
                  | Some control_dct => Some (F64.sub v control_dct)
                  | None => None
                  end).
  { rewrite compute_ddct_get.
    rewrite existsb_eqb_In by (apply Hgenes; exact (in_genes_of _ _ _ _ Hget)).
    dict_types. now rewrite Hget. }
  pose proof (fold_change_loop_get pow2_frac _ Dict.empty fc (c, g)
                (compute_ddct_wf _ _ _) Hfc) as Hfold.
  split; [|split; [|split; [|split]]]; try reflexivity.
  - unfold result_rows. apply in_map.
    apply (Permutation_in _ (Permutation_sym (sorted_keys_perm _))).
    apply in_keys_get. eauto.
  - cbn [result_row row_mean_delta_ct]. unfold rounded_or_nan.
    dict_types. now rewrite Hget.
  - cbn [result_row row_ddct row_fold_change].
    unfold rounded_or_nan, Dict.mem. dict_types. rewrite Hfold, Hdd.
    destruct (Dict.get mean_delta_ct (control_condition, g)) as [cd|].
    + split; auto. cbn [Dict.get].
      destruct (py_pow2 pow2_frac (F64.opp (F64.sub v cd))) as [p|] eqn:Ep.
      * exists p. auto.
      * exfalso. apply get_Some_In in Hdd.
        assert (Hnone : compute_fold_change pow2_frac
                          (compute_ddct genes mean_delta_ct control_condition)
                        = None).
        { apply fold_change_loop_None. eauto. }
        congruence.
    + auto.
Qed.

End PipelineFacts.

(** ** The further properties on concrete inputs *)

Lemma two_genes_order1 : set_iteration (genes_of mean_two_genes) ["Bax"; "p53"].
Proof.
  split.
  - repeat constructor; simpl; intuition discriminate.
  - intros x. simpl. tauto.
Qed.

Lemma two_genes_order2 : set_iteration (genes_of mean_two_genes) ["p53"; "Bax"].
Proof.
  split.
  - repeat constructor; simpl; intuition discriminate.
  - intros x. simpl. tauto.
Qed.

Lemma compute_ddct_values_witness :
  Dict.get (compute_ddct ["p53"; "Bax"] mean_two_genes "control")
           ("treated", "p53") = Some (F64.of_Z 2)
  /\ Dict.get (compute_ddct ["p53"; "Bax"] mean_two_genes "control")
              ("treated", "GAPDH") = None.
Proof.
  split.
  - rewrite (compute_ddct_values ["p53"; "Bax"] mean_two_genes "control"
               "treated" "p53" two_genes_order2).
    reflexivity.
  - rewrite (compute_ddct_values ["p53"; "Bax"] mean_two_genes "control"
               "treated" "GAPDH" two_genes_order2).
    reflexivity.
Defined.

Lemma compute_ddct_order_witness :
  Permutation (compute_ddct ["Bax"; "p53"] mean_two_genes "control")
              (compute_ddct ["p53"; "Bax"] mean_two_genes "control").
Proof.
  exact (compute_ddct_order_irrelevant ["Bax"; "p53"] ["p53"; "Bax"]
           mean_two_genes "control" two_genes_order1 two_genes_order2).
Defined.

(** A control condition spelled as no reading has it. *)
Lemma compute_ddct_no_control_witness :
  compute_ddct ["Bax"; "p53"] mean_two_genes "Control" = Dict.empty
  /\ compute_fold_change example_pow2_frac
       (compute_ddct ["Bax"; "p53"] mean_two_genes "Control")
     = Some Dict.empty.
Proof.
  apply (compute_ddct_no_control example_pow2_frac ["Bax"; "p53"]
           mean_two_genes "Control").
  intros k Hin. simpl in Hin.
  repeat (destruct Hin as [<- | Hin]; [discriminate|]). destruct Hin.
Defined.

Lemma compute_fold_change_overflow_witness :
  compute_fold_change example_pow2_frac ddct_overflow = None.
Proof.
  apply (compute_fold_change_overflow example_pow2_frac ddct_overflow
           ("treated", "Bax") (F64.of_Z (-2000)) 2000).
  - right. now left.
  - reflexivity.
  - lia.
Defined.

(** Delta-delta-Ct -3.0 gives the fold change 8.0. *)
Lemma fold_change_integer_witness :
  compute_fold_change example_pow2_frac ddct_integers
  = Some [ (("control", "Bax"), F64.one); (("treated", "Bax"), F64.of_Z 8);
           (("treated", "p53"), F64.dyadic 1 (-2)) ]
  /\ exists m e,
       Dict.get [ (("control", "Bax"), F64.one); (("treated", "Bax"), F64.of_Z 8);
                  (("treated", "p53"), F64.dyadic 1 (-2)) ] ("treated", "Bax")
       = Some (S754_finite false m e)
       /\ e <= 3 /\ Zpos m = 2 ^ (3 - e).
Proof.
  split; [reflexivity|].
  apply (fold_change_integer_exact example_pow2_frac ddct_integers _
           ("treated", "Bax") (F64.of_Z (-3)) 3).
  - apply distinctb_NoDup. reflexivity.
  - reflexivity.
  - reflexivity.
  - reflexivity.
  - reflexivity.
  - lia.
Defined.

Lemma fold_change_nonfinite_witness :
  exists fc,
    compute_fold_change example_pow2_frac ddct_nonfinite = Some fc
    /\ Dict.get fc ("a", "Bax") = Some F64.zero
    /\ Dict.get fc ("b", "Bax") = Some F64.infinity
    /\ Dict.get fc ("c", "Bax") = Some F64.nan.
Proof.
  assert (Hwf : Dict.wf ddct_nonfinite) by (apply distinctb_NoDup; reflexivity).
  destruct (fold_change_nonfinite example_pow2_frac ddct_nonfinite Hwf)
    as [_ [Hret Hval]].
  destruct Hret as [fc Hfc].
  - intros k v Hin. simpl in Hin.
    destruct Hin as [[= <- <-] | [[= <- <-] | [[= <- <-] | []]]]; reflexivity.
  - exists fc. split; [exact Hfc|]. split; [|split].
    + exact (Hval fc ("a", "Bax") F64.infinity Hfc eq_refl eq_refl).
    + exact (Hval fc ("b", "Bax") (S754_infinity true) Hfc eq_refl eq_refl).
    + exact (Hval fc ("c", "Bax") F64.nan Hfc eq_refl eq_refl).
Defined.

Lemma average_delta_ct_nan_witness :
  Dict.get (average_delta_ct delta_with_nan) ("control", "Bax") = Some F64.nan.
Proof.
  apply (average_delta_ct_nan delta_with_nan ("control", "Bax")
           [F64.of_Z 5; F64.nan; F64.of_Z 6]).
  - apply distinctb_NoDup. reflexivity.
  - reflexivity.
  - right. now left.
Defined.

Lemma average_delta_ct_keys_witness :
  Dict.keys (average_delta_ct delta_with_empty) = [("control", "Bax")].
Proof.
  rewrite (average_delta_ct_keys delta_with_empty).
  - reflexivity.
  - apply distinctb_NoDup. reflexivity.
Defined.

Lemma scenario_triples_distinct : NoDup (map reading_triple scenario).
Proof. apply distinctb_NoDup. reflexivity. Qed.

Lemma scenario_reordered_perm : Permutation scenario scenario_reordered.
Proof.
  unfold scenario, scenario_reordered. apply Permutation_sym.
  match goal with
  | |- Permutation (?d :: ?l) [?a; ?b; ?c; ?d] =>
      apply (Permutation_cons_app [a; b; c] [] d)
  end.
  apply perm_skip, perm_swap.
Qed.

Lemma group_ct_values_permutation_witness :
  match Dict.get (group_ct_values scenario) ("treated", "Bax") with
  | Some samples => Dict.get samples "s1"
  | None => None
  end
  = match Dict.get (group_ct_values scenario_reordered) ("treated", "Bax") with
    | Some samples => Dict.get samples "s1"
    | None => None
    end.
Proof.
  apply (group_ct_values_permutation scenario scenario_reordered
           scenario_triples_distinct scenario_reordered_perm).
Defined.

Lemma grouped_one_condition_wf : grouped_wf grouped_one_condition.
Proof. apply grouped_wfb_sound. reflexivity. Qed.

(** Treated Bax has no GAPDH reading under treated: the control GAPDH
    reading is not used for it. *)
Lemma delta_ct_needs_same_condition_witness :
  Dict.get (compute_delta_ct grouped_one_condition "GAPDH") ("treated", "Bax")
  = Some []
  /\ Dict.get (average_delta_ct (compute_delta_ct grouped_one_condition "GAPDH"))
              ("treated", "Bax") = None.
Proof.
  apply (delta_ct_needs_same_condition grouped_one_condition "GAPDH" "treated"
           "Bax" [("s1", F64.of_Z 24)] grouped_one_condition_wf).
  - discriminate.
  - reflexivity.
  - reflexivity.
Defined.

Lemma delta_ct_complete_witness :
  exists l,
    Dict.get (compute_delta_ct grouped_one_condition "GAPDH") ("control", "Bax")
    = Some l
    /\ List.length l = 1%nat
    /\ Forall2 (fun item d =>
                  exists h, Dict.get [("s1", F64.of_Z 20)] (fst item) = Some h
                            /\ d = F64.sub (snd item) h)
               [("s1", F64.of_Z 25)] l.
Proof.
  apply (delta_ct_complete grouped_one_condition "GAPDH" "control" "Bax"
           [("s1", F64.of_Z 25)] [("s1", F64.of_Z 20)]
           grouped_one_condition_wf).
  - discriminate.
  - reflexivity.
  - reflexivity.
  - intros s Hin. exact Hin.
Defined.

Lemma missing_s3_wf : grouped_wf grouped_missing_s3.
Proof. apply grouped_wfb_sound. reflexivity. Qed.

Lemma mean_entry_iff_matched_witness :
  In ("control", "Bax")
     (Dict.keys (average_delta_ct (compute_delta_ct grouped_missing_s3 "GAPDH")))
  <-> exists s x,
        In (s, x) [("s1", F64.of_Z 25); ("s2", F64.of_Z 26); ("s3", F64.of_Z 27)]
        /\ housekeeping_ct grouped_missing_s3 "GAPDH" "control" s <> None.
Proof.
  apply (mean_entry_iff_matched grouped_missing_s3 "GAPDH" "control" "Bax"
           [("s1", F64.of_Z 25); ("s2", F64.of_Z 26); ("s3", F64.of_Z 27)]
           missing_s3_wf).
  - discriminate.
  - reflexivity.
Defined.

(** The scenario with a housekeeping gene that no reading has. *)
Lemma pipeline_no_housekeeping_witness :
  pipeline example_pow2_frac ["Bax"] scenario "ACTB" "control"
  = (Dict.empty, Dict.empty, Some Dict.empty)
  /\ main_rows example_round4 example_pow2_frac ["Bax"] scenario "ACTB" "control"
     = Some [].
Proof.
  apply (pipeline_no_housekeeping example_pow2_frac example_round4 ["Bax"]
           scenario "ACTB" "control").
  intros row Hin. simpl in Hin.
  repeat (destruct Hin as [<- | Hin]; [discriminate|]). destruct Hin.
Defined.

(** The row of (treated, Bax) in the scenario, and the row of a gene with
    no control mean. *)
Lemma result_row_fields_witness :
  row_mean_delta_ct
    (result_row example_round4 scenario_mean
       (compute_ddct ["Bax"] scenario_mean "control")
       [ (("control", "Bax"), F64.one); (("treated", "Bax"), sqrt8) ]
       ("treated", "Bax")) = f3_5
  /\ row_ddct
       (result_row example_round4 scenario_mean
          (compute_ddct ["Bax"] scenario_mean "control")
          [ (("control", "Bax"), F64.one); (("treated", "Bax"), sqrt8) ]
          ("treated", "Bax")) = Some fm1_5.
Proof.
  destruct (result_row_fields example_pow2_frac example_round4 ["Bax"]
              scenario_mean "control" "treated" "Bax" f3_5
              [ (("control", "Bax"), F64.one); (("treated", "Bax"), sqrt8) ]
              scenario_genes eq_refl eq_refl)
    as [_ [_ [_ [Hmean Hrest]]]].
  split; [exact Hmean|]. exact (proj1 Hrest).
Defined.
